(** * redis-promise-lock: a shallow embedding of [src/lock.ts]

    [lock.ts] carries two revisions of the class [Lock], one after the
    other.  Both are embedded, each in a module of its own ([Lock1] for the
    first, [Lock2] for the second), and the properties of the specification
    are stated against them.

    The class talks to three things outside itself: the redis client
    ([setNX], [expire], [del]), the timer ([sleep]) and the clock
    ([new Date()]).  They are kept abstract: a client and a host are records
    of functions over a world of any type, and every effect of a run is
    written to a trace, much as [jest.fn] records the calls of a mock. *)

From Stdlib Require Import String Ascii List ZArith QArith Qround Lia Bool.
From stdpp Require Import gmap strings.
Import ListNotations.

Local Open Scope string_scope.

(** ** JavaScript values *)

(** A JavaScript number: not-a-number, the two infinities, or a finite value.
    Finite values are exact rationals; no rounding is modelled. *)
Inductive JsNum : Type :=
| NaN
| PInf
| NInf
| Fin (q : Q).

(** The values a caller can put where the types ask for a string or a
    number.  [JObject] stands for any object, array or function: truthy,
    and neither a string nor a number. *)
Inductive JsVal : Type :=
| JUndefined
| JNull
| JBool (b : bool)
| JNum (n : JsNum)
| JStr (s : string)
| JObject.

Definition Qltb (x y : Q) : bool := (Qnum x * QDen y <? Qnum y * QDen x)%Z.

Definition Qzerob (x : Q) : bool := (Qnum x =? 0)%Z.

(** [n > 0] *)
Definition num_gt0 (n : JsNum) : bool :=
  match n with
  | NaN => false
  | PInf => true
  | NInf => false
  | Fin q => Qltb 0 q
  end.

(** [n >= 0] *)
Definition num_ge0 (n : JsNum) : bool :=
  match n with
  | NaN => false
  | PInf => true
  | NInf => false
  | Fin q => negb (Qltb q 0)
  end.

(** [n !== 0] *)
Definition num_neq0 (n : JsNum) : bool :=
  match n with
  | Fin q => negb (Qzerob q)
  | _ => true
  end.

(** Truthiness of a number: every number but [0] and [NaN]. *)
Definition num_truthy (n : JsNum) : bool :=
  match n with
  | NaN => false
  | Fin q => negb (Qzerob q)
  | _ => true
  end.

(** [counter < limit].  The counter counts the rounds of a loop from 0 and
    is kept exact. *)
Definition counter_lt (counter : nat) (limit : JsNum) : bool :=
  match limit with
  | NaN => false
  | PInf => true
  | NInf => false
  | Fin q => Qltb (inject_Z (Z.of_nat counter)) q
  end.

Definition str_empty (s : string) : bool :=
  match s with
  | EmptyString => true
  | String _ _ => false
  end.

Definition truthy (v : JsVal) : bool :=
  match v with
  | JUndefined => false
  | JNull => false
  | JBool b => b
  | JNum n => num_truthy n
  | JStr s => negb (str_empty s)
  | JObject => true
  end.

(** [a || b] *)
Definition js_or (a b : JsVal) : JsVal := if truthy a then a else b.

(** [v !== undefined] *)
Definition is_defined (v : JsVal) : bool :=
  match v with
  | JUndefined => false
  | _ => true
  end.

(** [typeof v === 'number' && check v], with the number it found. *)
Definition number_where (check : JsNum -> bool) (v : JsVal) : option JsNum :=
  match v with
  | JNum n => if check n then Some n else None
  | _ => None
  end.

Definition num (z : Z) : JsNum := Fin (inject_Z z).

(** ** Errors and results *)

Inductive Exn : Type :=
| Error (message : string)
| TypeError (member : string).

(** A synchronous function either returns or throws. *)
Inductive Result (A : Type) : Type :=
| Ok (a : A)
| Throw (e : Exn).
Arguments Ok {A} a.
Arguments Throw {A} e.

(** What a promise of the client settles to. *)
Inductive Reply (A : Type) : Type :=
| Fulfilled (a : A)
| Rejects (e : Exn).
Arguments Fulfilled {A} a.
Arguments Rejects {A} e.

(** An asynchronous function returns, throws, or is still running when the
    rounds granted to its loop are used up. *)
Inductive Outcome (A : Type) : Type :=
| Returned (a : A)
| Threw (e : Exn)
| Pending.
Arguments Returned {A} a.
Arguments Threw {A} e.
Arguments Pending {A}.

(** ** Effects *)

Inductive Event : Type :=
| EvSetNX (key payload : string)
| EvExpire (key : string) (ttl : JsNum)
| EvDel (key : string)
| EvSleep (ms : JsNum)
| EvDate.

Record Run (W A : Type) : Type := mkRun {
  outcome : Outcome A;
  final : W;
  trace : list Event
}.
Arguments mkRun {W A} outcome final trace.
Arguments outcome {W A} r.
Arguments final {W A} r.
Arguments trace {W A} r.

Definition M (W A : Type) : Type := W -> Run W A.

Definition ret {W A} (a : A) : M W A := fun w => mkRun (Returned a) w [].

Definition throw {W A} (e : Exn) : M W A := fun w => mkRun (Threw e) w [].

Definition pending {W A} : M W A := fun w => mkRun Pending w [].

Definition bind {W A B} (m : M W A) (k : A -> M W B) : M W B :=
  fun w =>
    let r := m w in
    match outcome r with
    | Returned a =>
        let r' := k a (final r) in
        mkRun (outcome r') (final r') (trace r ++ trace r')
    | Threw e => mkRun (Threw e) (final r) (trace r)
    | Pending => mkRun Pending (final r) (trace r)
    end.

Definition lift {W A} (r : Result A) : M W A :=
  match r with
  | Ok a => ret a
  | Throw e => throw e
  end.

Notation "'let!' x ':=' m 'in' k" := (bind m (fun x => k))
  (at level 10, x name, m at level 100, k at level 200).
Notation "'do!' m 'in' k" := (bind m (fun _ => k))
  (at level 10, m at level 100, k at level 200).

(** The redis client, as far as the class uses it. *)
Record Client (W : Type) : Type := mkClient {
  cl_setNX : string -> string -> W -> Reply bool * W;
  cl_expire : string -> JsNum -> W -> Reply unit * W;
  cl_del : string -> W -> Reply unit * W
}.
Arguments mkClient {W} _ _ _.
Arguments cl_setNX {W} c key payload w.
Arguments cl_expire {W} c key ttl w.
Arguments cl_del {W} c key w.

(** What the constructor can be handed as [redisClient]. *)
Inductive ClientRef (W : Type) : Type :=
| NoClient
| NullClient
| ClientObj (c : Client W).
Arguments NoClient {W}.
Arguments NullClient {W}.
Arguments ClientObj {W} c.

(** The timer and the clock: [h_sleep ms] is what the world becomes while a
    call sleeps [ms] milliseconds, [h_now] is [(new Date()).toISOString()]. *)
Record Host (W : Type) : Type := mkHost {
  h_sleep : JsNum -> W -> W;
  h_now : W -> string
}.
Arguments mkHost {W} _ _.
Arguments h_sleep {W} h ms w.
Arguments h_now {W} h w.

Section Primitives.
Context {W : Type}.

(** Awaiting a call of the client. *)
Definition await {A} (ev : Event) (call : W -> Reply A * W) : M W A :=
  fun w =>
    let '(r, w') := call w in
    mkRun (match r with Fulfilled a => Returned a | Rejects e => Threw e end)
          w' [ev].

Definition client_setNX (c : ClientRef W) (key payload : string) : M W bool :=
  match c with
  | ClientObj cl => await (EvSetNX key payload) (cl_setNX cl key payload)
  | _ => throw (TypeError "setNX")
  end.

Definition client_expire (c : ClientRef W) (key : string) (ttl : JsNum) : M W unit :=
  match c with
  | ClientObj cl => await (EvExpire key ttl) (cl_expire cl key ttl)
  | _ => throw (TypeError "expire")
  end.

Definition client_del (c : ClientRef W) (key : string) : M W unit :=
  match c with
  | ClientObj cl => await (EvDel key) (cl_del cl key)
  | _ => throw (TypeError "del")
  end.

(** [const sleep = (ms) => new Promise((resolve) => setTimeout(() => resolve(), ms))] *)
Definition sleep (host : Host W) (ms : JsNum) : M W unit :=
  fun w => mkRun (Returned tt) (h_sleep host ms w) [EvSleep ms].

(** [(new Date()).toISOString()] *)
Definition date_now (host : Host W) : M W string :=
  fun w => mkRun (Returned (h_now host w)) w [EvDate].
End Primitives.

Definition dquote : string := String (ascii_of_nat 34) EmptyString.

(** [JSON.stringify({ lockedSince: iso })].  An ISO timestamp holds no
    character that JSON escapes, so the value is only wrapped in quotes. *)
Definition stringify_lockedSince (iso : string) : string :=
  "{" +:+ dquote +:+ "lockedSince" +:+ dquote +:+ ":" +:+ dquote +:+ iso +:+ dquote +:+ "}".

Definition packageName : string := "redis-promise-lock".

Record OptionalLockOptions : Type := mkPartial {
  o_retryLimit : JsVal;
  o_retryDelay : JsVal;
  o_ttl : JsVal
}.

Record LockOptions : Type := mkOptions {
  retryLimit : JsNum;
  retryDelay : JsNum;
  ttl : JsNum
}.

(** [{}] *)
Definition no_options : OptionalLockOptions := mkPartial JUndefined JUndefined JUndefined.

(** ** The first revision of the class (lock.ts, lines 1 to 129) *)

Module Lock1.
Section Class.
Context {W : Type} (host : Host W).

(** The fields of an instance.  The constructor of this revision stores
    whatever it is given, so the defaults are values of any kind. *)
Record Lock : Type := mkLock {
  client : ClientRef W;
  defaultRetryLimit : JsVal;
  defaultRetryDelay : JsVal;
  defaultTtl : JsVal
}.

Definition errNoClient : Exn :=
  Error ("[" +:+ packageName +:+ "] - No redisClient provided.").
Definition errLockName : Exn :=
  Error ("[" +:+ packageName +:+ "] - Invalid lockName provided! Must be a string.").
Definition errRetryLimit : Exn :=
  Error ("[" +:+ packageName +:+ "] - Invalid retryLimit provided! Must be a number greater than 0.").
Definition errRetryDelay : Exn :=
  Error ("[" +:+ packageName +:+ "] - Invalid retryDelay provided! Must be a number greater than 0.").
Definition errTtl : Exn :=
  Error ("[" +:+ packageName +:+ "] - Invalid ttl provided! Must be a number greater than or equal to 0.").

(** [!redisClient] *)
Definition no_client (redisClient : ClientRef W) : bool :=
  match redisClient with
  | ClientObj _ => false
  | _ => true
  end.

Definition constructor (redisClient : ClientRef W) (options : OptionalLockOptions)
  : Result Lock :=
  if no_client redisClient then Throw errNoClient
  else Ok {| client := redisClient;
             defaultRetryLimit := js_or (o_retryLimit options) (JNum (num 10));
             defaultRetryDelay := js_or (o_retryDelay options) (JNum (num 1000));
             defaultTtl := js_or (o_ttl options) (JNum (num 3)) |}.

(** [if (!lockName || typeof lockName !== 'string') throw ...]; past the
    guard the name is a string. *)
Definition getRedisKey (lockName : JsVal) : Result string :=
  match lockName with
  | JStr s =>
      if negb (truthy lockName) then Throw errLockName
      else Ok (packageName +:+ ":" +:+ s)
  | _ => Throw errLockName
  end.

Definition getOptions (self : Lock) (lockSpecificOptions : OptionalLockOptions)
  : Result LockOptions :=
  let options_retryLimit := js_or (o_retryLimit lockSpecificOptions) (defaultRetryLimit self) in
  let options_retryDelay := js_or (o_retryDelay lockSpecificOptions) (defaultRetryDelay self) in
  let options_ttl := js_or (o_ttl lockSpecificOptions) (defaultTtl self) in
  match number_where num_gt0 options_retryLimit with
  | None => Throw errRetryLimit
  | Some rl =>
      match number_where num_gt0 options_retryDelay with
      | None => Throw errRetryDelay
      | Some rd =>
          match number_where num_ge0 options_ttl with
          | None => Throw errTtl
          | Some t => Ok (mkOptions rl rd t)
          end
      end
  end.

Definition applyLock (self : Lock) (key payload : string) (ttl : JsNum) : M W bool :=
  let! lockApplied := client_setNX (client self) key payload in
  if num_truthy ttl && lockApplied
  then do! client_expire (client self) key ttl in ret lockApplied
  else ret lockApplied.

Definition releaseLock (self : Lock) (lockName : JsVal) : M W unit :=
  let! key := lift (getRedisKey lockName) in
  client_del (client self) key.

(** The [while] loop of [acquireLock]; [rounds] bounds the rounds the model
    follows, and the run is [Pending] when they are used up. *)
Fixpoint retry (rounds : nat) (self : Lock) (key payload : string)
    (options : LockOptions) (lockApplied : bool) (counter : nat) : M W bool :=
  if negb lockApplied && counter_lt counter (retryLimit options) then
    match rounds with
    | O => pending
    | S rounds' =>
        do! sleep host (retryDelay options) in
        let! lockApplied' := applyLock self key payload (ttl options) in
        retry rounds' self key payload options lockApplied' (S counter)
    end
  else ret lockApplied.

Definition acquireLock (rounds : nat) (self : Lock) (lockName : JsVal)
    (lockSpecificOptions : OptionalLockOptions) : M W bool :=
  let! options := lift (getOptions self lockSpecificOptions) in
  let! key := lift (getRedisKey lockName) in
  let! iso := date_now host in
  let payload := stringify_lockedSince iso in
  let! lockApplied := applyLock self key payload (ttl options) in
  retry rounds self key payload options lockApplied 0.

End Class.
End Lock1.

(** ** The second revision of the class (lock.ts, lines 129 to 257) *)

Module Lock2.
Section Class.
Context {W : Type} (host : Host W).

(** The fields of an instance.  The defaults are the numbers [getOptions]
    returned to the constructor. *)
Record Lock : Type := mkLock {
  client : ClientRef W;
  defaultRetryLimit : JsNum;
  defaultRetryDelay : JsNum;
  defaultTtl : JsNum
}.

Definition errNoClient : Exn :=
  Error ("[" +:+ packageName +:+ "] - No redisClient provided.").
Definition errLockName : Exn :=
  Error ("[" +:+ packageName +:+ "] - Invalid lockName provided! Must be a non empty string.").
Definition errRetryLimit : Exn :=
  Error ("[" +:+ packageName +:+ "] - Invalid retryLimit provided! Must be a number greater than 0.").
Definition errRetryDelay : Exn :=
  Error ("[" +:+ packageName +:+ "] - Invalid retryDelay provided! Must be a number greater than 0.").
Definition errTtl : Exn :=
  Error ("[" +:+ packageName +:+ "] - Invalid ttl provided! Must be a number greater than or equal to 0.").

(** [typeof lockName !== 'string' || lockName.length === 0] *)
Definition getRedisKey (lockName : JsVal) : Result string :=
  match lockName with
  | JStr s =>
      if (String.length s =? 0)%nat then Throw errLockName
      else Ok (packageName +:+ ":" +:+ s)
  | _ => Throw errLockName
  end.

Definition getOptions (self : Lock) (lockSpecificOptions : OptionalLockOptions)
  : Result LockOptions :=
  let options_retryLimit :=
    if is_defined (o_retryLimit lockSpecificOptions)
    then o_retryLimit lockSpecificOptions else JNum (defaultRetryLimit self) in
  let options_retryDelay :=
    if is_defined (o_retryDelay lockSpecificOptions)
    then o_retryDelay lockSpecificOptions else JNum (defaultRetryDelay self) in
  let options_ttl :=
    if is_defined (o_ttl lockSpecificOptions)
    then o_ttl lockSpecificOptions else JNum (defaultTtl self) in
  match number_where num_gt0 options_retryLimit with
  | None => Throw errRetryLimit
  | Some rl =>
      match number_where num_gt0 options_retryDelay with
      | None => Throw errRetryDelay
      | Some rd =>
          match number_where num_ge0 options_ttl with
          | None => Throw errTtl
          | Some t => Ok (mkOptions rl rd t)
          end
      end
  end.

(** The instance as the field initialisers leave it, before the body of the
    constructor assigns the defaults. *)
Definition initial (redisClient : ClientRef W) : Lock :=
  {| client := redisClient;
     defaultRetryLimit := num 10;
     defaultRetryDelay := num 100;
     defaultTtl := num 3 |}.

(** [redisClient === undefined] *)
Definition is_undefined (redisClient : ClientRef W) : bool :=
  match redisClient with
  | NoClient => true
  | _ => false
  end.

Definition constructor (redisClient : ClientRef W) (options : OptionalLockOptions)
  : Result Lock :=
  if is_undefined redisClient then Throw errNoClient
  else
    match getOptions (initial redisClient) options with
    | Throw e => Throw e
    | Ok defaultOptions =>
        Ok {| client := redisClient;
              defaultRetryLimit := retryLimit defaultOptions;
              defaultRetryDelay := retryDelay defaultOptions;
              defaultTtl := ttl defaultOptions |}
    end.

Definition applyLock (self : Lock) (key payload : string) (ttl : JsNum) : M W bool :=
  let! lockApplied := client_setNX (client self) key payload in
  if num_neq0 ttl && lockApplied
  then do! client_expire (client self) key ttl in ret lockApplied
  else ret lockApplied.

Definition releaseLock (self : Lock) (lockName : JsVal) : M W unit :=
  let! key := lift (getRedisKey lockName) in
  client_del (client self) key.

(** The [while] loop of [acquireLock]; [rounds] bounds the rounds the model
    follows, and the run is [Pending] when they are used up. *)
Fixpoint retry (rounds : nat) (self : Lock) (key payload : string)
    (options : LockOptions) (lockApplied : bool) (counter : nat) : M W bool :=
  if negb lockApplied && counter_lt counter (retryLimit options) then
    match rounds with
    | O => pending
    | S rounds' =>
        do! sleep host (retryDelay options) in
        let! lockApplied' := applyLock self key payload (ttl options) in
        retry rounds' self key payload options lockApplied' (S counter)
    end
  else ret lockApplied.

Definition acquireLock (rounds : nat) (self : Lock) (lockName : JsVal)
    (lockSpecificOptions : OptionalLockOptions) : M W bool :=
  let! options := lift (getOptions self lockSpecificOptions) in
  let! key := lift (getRedisKey lockName) in
  let! iso := date_now host in
  let payload := stringify_lockedSince iso in
  let! lockApplied := applyLock self key payload (ttl options) in
  retry rounds self key payload options lockApplied 0.

End Class.
End Lock2.

(** ** Reading a trace *)

Definition is_setNX (ev : Event) : bool :=
  match ev with EvSetNX _ _ => true | _ => false end.
Definition is_expire (ev : Event) : bool :=
  match ev with EvExpire _ _ => true | _ => false end.
Definition is_sleep (ev : Event) : bool :=
  match ev with EvSleep _ => true | _ => false end.

Definition calls (p : Event -> bool) (tr : list Event) : nat :=
  length (List.filter p tr).

(** The trace of [n] retries: a sleep, then an attempt. *)
Fixpoint retries (key payload : string) (delay : JsNum) (n : nat) : list Event :=
  match n with
  | O => []
  | S n' => EvSleep delay :: EvSetNX key payload :: retries key payload delay n'
  end.

(** The trace of [n + 1] attempts on a key with a payload, one sleep before
    each attempt but the first. *)
Definition attempts (key payload : string) (delay : JsNum) (n : nat) : list Event :=
  EvSetNX key payload :: retries key payload delay n.

(** What a successful attempt adds: the expiry, unless the ttl is 0. *)
Definition expiry (key : string) (ttl : JsNum) : list Event :=
  if num_neq0 ttl then [EvExpire key ttl] else [].

(** ** A scripted world, in the manner of the mocks of the test suite *)

Module Mock.

Record World : Type := mkWorld {
  setNX_calls : nat;
  expire_calls : nat;
  del_calls : nat;
  slept : nat
}.

(** What the mock answers to its i-th call of each kind, and what the clock
    shows after i sleeps. *)
Record Script : Type := mkScript {
  on_setNX : nat -> Reply bool;
  on_expire : nat -> Reply unit;
  on_del : nat -> Reply unit;
  clock : nat -> string
}.

Definition start : World := mkWorld 0 0 0 0.

Definition client (sc : Script) : Client World :=
  mkClient
    (fun _ _ w =>
       (on_setNX sc (setNX_calls w),
        mkWorld (S (setNX_calls w)) (expire_calls w) (del_calls w) (slept w)))
    (fun _ _ w =>
       (on_expire sc (expire_calls w),
        mkWorld (setNX_calls w) (S (expire_calls w)) (del_calls w) (slept w)))
    (fun _ w =>
       (on_del sc (del_calls w),
        mkWorld (setNX_calls w) (expire_calls w) (S (del_calls w)) (slept w))).

Definition host (sc : Script) : Host World :=
  mkHost
    (fun _ w => mkWorld (setNX_calls w) (expire_calls w) (del_calls w) (S (slept w)))
    (fun w => clock sc (slept w)).

(** A store that answers [setNX] after [f] and fails nowhere. *)
Definition answering (f : nat -> bool) : Script :=
  mkScript (fun i => Fulfilled (f i)) (fun _ => Fulfilled tt) (fun _ => Fulfilled tt)
           (fun _ => "2024-01-01T00:00:00.000Z").

End Mock.

(** ** A reference store

    The contract the specification gives for the client: [setNX] creates the
    record only when the key is absent and says whether it did, [expire]
    sets the time to live of a record that exists, [del] removes the record
    and does nothing when there is none.  The passing of time, and with it
    the removal of records whose time has run out, is left out. *)

Module Store.

Record Entry : Type := mkEntry {
  value : string;
  time_to_live : option JsNum
}.

Definition setNX (key payload : string) (st : gmap string Entry)
  : Reply bool * gmap string Entry :=
  match st !! key with
  | Some _ => (Fulfilled false, st)
  | None => (Fulfilled true, <[key := mkEntry payload None]> st)
  end.

Definition expire (key : string) (ttl : JsNum) (st : gmap string Entry)
  : Reply unit * gmap string Entry :=
  (Fulfilled tt, alter (fun e => mkEntry (value e) (Some ttl)) key st).

Definition del (key : string) (st : gmap string Entry)
  : Reply unit * gmap string Entry :=
  (Fulfilled tt, delete key st).

Definition client : Client (gmap string Entry) := mkClient setNX expire del.

Definition host : Host (gmap string Entry) :=
  mkHost (fun _ st => st) (fun _ => "2024-01-01T00:00:00.000Z").

End Store.

(** ** The vocabulary of the specification *)

(** The count of natural numbers below a finite number (the number itself
    when it is a positive integer). *)
Definition rounds_below (q : Q) : nat := Z.to_nat (Qceiling q).

(** The number is the integer [n]. *)
Definition is_integer (limit : JsNum) (n : nat) : Prop :=
  exists q, limit = Fin q /\ (q == inject_Z (Z.of_nat n))%Q.

(** The number is 0. *)
Definition is_zero (n : JsNum) : Prop := exists q, n = Fin q /\ (q == 0)%Q.

(** [v] is a number greater than 0. *)
Definition number_gt0 (v : JsVal) : Prop :=
  v = JNum PInf \/ exists q, v = JNum (Fin q) /\ (0 < q)%Q.

(** [v] is a number greater than or equal to 0. *)
Definition number_ge0 (v : JsVal) : Prop :=
  v = JNum PInf \/ exists q, v = JNum (Fin q) /\ (0 <= q)%Q.

(** An option left out, or one that meets its rule. *)
Definition optional (rule : JsVal -> Prop) (v : JsVal) : Prop :=
  v = JUndefined \/ rule v.

(** A valid partial option object. *)
Definition valid_partial (o : OptionalLockOptions) : Prop :=
  optional number_gt0 (o_retryLimit o) /\
  optional number_gt0 (o_retryDelay o) /\
  optional number_ge0 (o_ttl o).

(** The defaults of an instance of the second revision meet the rules. *)
Definition valid_defaults {W} (self : @Lock2.Lock W) : Prop :=
  number_gt0 (JNum (Lock2.defaultRetryLimit self)) /\
  number_gt0 (JNum (Lock2.defaultRetryDelay self)) /\
  number_ge0 (JNum (Lock2.defaultTtl self)).

(** The resolved value of an option in the second revision: the supplied
    value when there is one, the default otherwise. *)
Definition resolve2 (supplied : JsVal) (default : JsNum) : JsVal :=
  if is_defined supplied then supplied else JNum default.

(** A name that is not a non-empty string. *)
Definition invalid_name (lockName : JsVal) : Prop :=
  forall c s, lockName <> JStr (String c s).





(** The contract of [del] that makes a release repeatable: deleting a key
    that has just been deleted is fulfilled and changes nothing. *)
Definition del_of_absent_is_noop {W} (cl : Client W) : Prop :=
  forall key w,
    cl_del cl key (snd (cl_del cl key w)) = (Fulfilled tt, snd (cl_del cl key w)).

(** ** Instances and inputs of the examples *)

(** [{ ttl: v }], [{ retryLimit: v }], [{ retryDelay: v }] *)
Definition only_ttl (v : JsVal) : OptionalLockOptions := mkPartial JUndefined JUndefined v.
Definition only_retryLimit (v : JsVal) : OptionalLockOptions := mkPartial v JUndefined JUndefined.
Definition only_retryDelay (v : JsVal) : OptionalLockOptions := mkPartial JUndefined v JUndefined.

(** [{ retryLimit: 3, retryDelay: 10, ttl: 5 }] *)
Definition scenario_options : OptionalLockOptions :=
  mkPartial (JNum (num 3)) (JNum (num 10)) (JNum (num 5)).

(** An instance of the second revision with the client of an instance of
    the first; the two revisions are compared through it. *)
Definition as_second {W} (self : @Lock1.Lock W) (d : LockOptions) : @Lock2.Lock W :=
  Lock2.mkLock (Lock1.client self) (retryLimit d) (retryDelay d) (ttl d).

(** [new Lock(client)] over a scripted client, in each revision. *)
Definition mock_lock1 (sc : Mock.Script) : @Lock1.Lock Mock.World :=
  Lock1.mkLock (ClientObj (Mock.client sc)) (JNum (num 10)) (JNum (num 1000)) (JNum (num 3)).
Definition mock_lock2 (sc : Mock.Script) : @Lock2.Lock Mock.World :=
  Lock2.mkLock (ClientObj (Mock.client sc)) (num 10) (num 100) (num 3).

(** A store that never accepts, and one that accepts the third attempt. *)
Definition always_refusing : Mock.Script := Mock.answering (fun _ => false).
Definition third_time_lucky : Mock.Script :=
  Mock.answering (fun i => match i with 2 => true | _ => false end).

(** A clock that moves on by a second with the first sleep, over a store
    that accepts the second attempt. *)
Definition ticking : Mock.Script :=
  Mock.mkScript
    (fun i => Fulfilled (match i with O => false | _ => true end))
    (fun _ => Fulfilled tt) (fun _ => Fulfilled tt)
    (fun i => match i with
              | O => "2024-01-01T00:00:00.000Z"
              | _ => "2024-01-01T00:00:01.000Z"
              end).

(** [new Lock(client)] over the reference store, in each revision. *)
Definition store_lock1 : @Lock1.Lock (gmap string Store.Entry) :=
  Lock1.mkLock (ClientObj Store.client) (JNum (num 10)) (JNum (num 1000)) (JNum (num 3)).
Definition store_lock2 : @Lock2.Lock (gmap string Store.Entry) :=
  Lock2.mkLock (ClientObj Store.client) (num 10) (num 100) (num 3).

(** A store in which ["gunna"] is locked. *)
Definition gunna_locked : gmap string Store.Entry :=
  <["redis-promise-lock:gunna" := Store.mkEntry "since" (Some (num 3))]> ∅.

(** ** Further vocabulary *)

Definition is_del (ev : Event) : bool :=
  match ev with EvDel _ => true | _ => false end.

(** A partial option object with its falsy fields ([0], [NaN], [""],
    [null], [false]) left out. *)
Definition unset_if_falsy (v : JsVal) : JsVal := if truthy v then v else JUndefined.
Definition erase_falsy (o : OptionalLockOptions) : OptionalLockOptions :=
  mkPartial (unset_if_falsy (o_retryLimit o)) (unset_if_falsy (o_retryDelay o))
            (unset_if_falsy (o_ttl o)).

(** An instance of the first revision and one of the second hold the same
    defaults. *)
Definition same_defaults {W} (self1 : @Lock1.Lock W) (self2 : @Lock2.Lock W) : Prop :=
  Lock1.defaultRetryLimit self1 = JNum (Lock2.defaultRetryLimit self2) /\
  Lock1.defaultRetryDelay self1 = JNum (Lock2.defaultRetryDelay self2) /\
  Lock1.defaultTtl self1 = JNum (Lock2.defaultTtl self2).

(** The shape of the trace of a call of [acquireLock] that got past its
    checks, followed for [rounds] rounds: the clock, then [m + 1] attempts
    on the key with the payload, a sleep of [retryDelay] before each but
    the first, then at most one [expire]; none after a refusal, the one of
    the ttl after an acceptance; a run still pending has used its rounds. *)
Definition trace_shape {W} (key payload : string) (options : LockOptions)
    (rounds : nat) (r : Run W bool) : Prop :=
  exists m tail,
    m <= rounds /\
    trace r = EvDate :: attempts key payload (retryDelay options) m ++ tail /\
    (tail = [] \/ tail = [EvExpire key (ttl options)]) /\
    (outcome r = Returned false -> tail = []) /\
    (outcome r = Returned true -> tail = expiry key (ttl options)) /\
    (outcome r = Pending -> tail = [] /\ m = rounds).

(** A store that refuses twice and then fails, and one that accepts but
    fails to set the expiry. *)
Definition connection_lost : Exn := Error "connection lost".
Definition failing_third : Mock.Script :=
  Mock.mkScript
    (fun i => match i with 2 => Rejects connection_lost | _ => Fulfilled false end)
    (fun _ => Fulfilled tt) (fun _ => Fulfilled tt)
    (fun _ => "2024-01-01T00:00:00.000Z").
Definition failing_expire : Mock.Script :=
  Mock.mkScript
    (fun _ => Fulfilled true)
    (fun _ => Rejects connection_lost) (fun _ => Fulfilled tt)
    (fun _ => "2024-01-01T00:00:00.000Z").

(** What a call of [acquireLock] never does: it never deletes, it calls
    [expire] at most once, and not at all when it returns false. *)
Definition sparing {W} (r : Run W bool) : Prop :=
  calls is_del (trace r) = 0 /\
  calls is_expire (trace r) <= 1 /\
  (outcome r = Returned false -> calls is_expire (trace r) = 0).

(** What becomes of a call of [acquireLock] whose first [setNX] the store
    accepted, leaving the world [w1]: with a ttl of 0 it has returned true
    and done nothing more; with another ttl, and an [expire] the store
    fulfils, it has returned true after that one [expire]. *)
Definition free_contract {W} (cl : Client W) (key payload : string)
    (options : LockOptions) (w1 : W) (r : Run W bool) : Prop :=
  (is_zero (ttl options) ->
   r = mkRun (Returned true) w1 [EvDate; EvSetNX key payload]) /\
  (forall u w2,
     ~ is_zero (ttl options) ->
     cl_expire cl key (ttl options) w1 = (Fulfilled u, w2) ->
     r = mkRun (Returned true) w2
           [EvDate; EvSetNX key payload; EvExpire key (ttl options)]).

(** * Properties *)

(** ** Numbers *)

Lemma Qltb_lt (x y : Q) : Qltb x y = true <-> (x < y)%Q.
Proof. unfold Qltb, Qlt. apply Z.ltb_lt. Qed.

Lemma Qltb_ge (x y : Q) : Qltb x y = false <-> (y <= x)%Q.
Proof. unfold Qltb, Qle. rewrite Z.ltb_ge. reflexivity. Qed.

Lemma number_where_Some (check : JsNum -> bool) (v : JsVal) (n : JsNum) :
  number_where check v = Some n <-> v = JNum n /\ check n = true.
Proof.
  destruct v as [| |b|m|s|]; simpl; try (split; [discriminate | intros [H _]; discriminate]).
  destruct (check m) eqn:E; split.
  - intros H. injection H as <-. auto.
  - intros [H _]. injection H as <-. reflexivity.
  - discriminate.
  - intros [H C]. injection H as <-. congruence.
Qed.

Lemma num_gt0_spec (n : JsNum) : num_gt0 n = true <-> number_gt0 (JNum n).
Proof.
  unfold number_gt0. destruct n as [| | |q]; simpl; split; intros H;
    try discriminate; try (left; reflexivity); try reflexivity;
    try (destruct H as [H | [q' [H _]]]; discriminate).
  - right. exists q. split; [reflexivity | now apply Qltb_lt].
  - destruct H as [H | [q' [H Hq]]]; [discriminate |].
    injection H as <-. now apply Qltb_lt.
Qed.

Lemma num_ge0_spec (n : JsNum) : num_ge0 n = true <-> number_ge0 (JNum n).
Proof.
  unfold number_ge0. destruct n as [| | |q]; simpl; split; intros H;
    try discriminate; try (left; reflexivity); try reflexivity;
    try (destruct H as [H | [q' [H _]]]; discriminate).
  - right. exists q. split; [reflexivity |].
    apply negb_true_iff in H. now apply Qltb_ge.
  - destruct H as [H | [q' [H Hq]]]; [discriminate |].
    injection H as <-. apply negb_true_iff. now apply Qltb_ge.
Qed.

Lemma number_where_gt0 (v : JsVal) :
  (exists n, number_where num_gt0 v = Some n) <-> number_gt0 v.
Proof.
  split.
  - intros [n H]. apply number_where_Some in H as [-> H]. now apply num_gt0_spec.
  - intros H. assert (exists n, v = JNum n) as [n ->].
    { destruct H as [-> | [q [-> _]]]; eauto. }
    exists n. apply number_where_Some. split; [reflexivity | now apply num_gt0_spec].
Qed.

Lemma number_where_ge0 (v : JsVal) :
  (exists n, number_where num_ge0 v = Some n) <-> number_ge0 v.
Proof.
  split.
  - intros [n H]. apply number_where_Some in H as [-> H]. now apply num_ge0_spec.
  - intros H. assert (exists n, v = JNum n) as [n ->].
    { destruct H as [-> | [q [-> _]]]; eauto. }
    exists n. apply number_where_Some. split; [reflexivity | now apply num_ge0_spec].
Qed.

Lemma number_where_None_gt0 (v : JsVal) :
  number_where num_gt0 v = None <-> ~ number_gt0 v.
Proof.
  rewrite <- number_where_gt0. destruct (number_where num_gt0 v) as [n|]; split.
  - discriminate.
  - intros H. exfalso. apply H. eauto.
  - intros _ [n H]. discriminate.
  - reflexivity.
Qed.

Lemma number_where_None_ge0 (v : JsVal) :
  number_where num_ge0 v = None <-> ~ number_ge0 v.
Proof.
  rewrite <- number_where_ge0. destruct (number_where num_ge0 v) as [n|]; split.
  - discriminate.
  - intros H. exfalso. apply H. eauto.
  - intros _ [n H]. discriminate.
  - reflexivity.
Qed.

(** ** Key derivation *)

(** C5: a name that is not a non-empty string (missing, empty, of another
    type) makes [getRedisKey] throw the invalid-name error; a non-empty
    string gives ["redis-promise-lock"], [":"] and the name.  Both revisions
    of the class agree, and the key is a function of the name alone. *)
Theorem getRedisKey_namespaced (lockName : JsVal) :
  match lockName with
  | JStr (String c s) =>
      Lock1.getRedisKey lockName = Ok ("redis-promise-lock:" +:+ String c s) /\
      Lock2.getRedisKey lockName = Ok ("redis-promise-lock:" +:+ String c s)
  | _ =>
      Lock1.getRedisKey lockName = Throw Lock1.errLockName /\
      Lock2.getRedisKey lockName = Throw Lock2.errLockName
  end.
Proof.
  destruct lockName as [| |b|n|s|]; try (split; reflexivity).
  destruct s as [|c s]; split; reflexivity.
Qed.

Example getRedisKey_x : Lock2.getRedisKey (JStr "x") = Ok "redis-promise-lock:x".
Proof. reflexivity. Qed.

Example getRedisKey_number : Lock2.getRedisKey (JNum (num 6969)) = Throw Lock2.errLockName.
Proof. reflexivity. Qed.

(** ** Option resolution, second revision *)

Section Options2.
Context {W : Type}.
Implicit Types (self : @Lock2.Lock W) (o : OptionalLockOptions).

Lemma getOptions2_unfold self o :
  Lock2.getOptions self o =
  match number_where num_gt0 (resolve2 (o_retryLimit o) (Lock2.defaultRetryLimit self)) with
  | None => Throw Lock2.errRetryLimit
  | Some rl =>
      match number_where num_gt0 (resolve2 (o_retryDelay o) (Lock2.defaultRetryDelay self)) with
      | None => Throw Lock2.errRetryDelay
      | Some rd =>
          match number_where num_ge0 (resolve2 (o_ttl o) (Lock2.defaultTtl self)) with
          | None => Throw Lock2.errTtl
          | Some t => Ok (mkOptions rl rd t)
          end
      end
  end.
Proof. reflexivity. Qed.

Lemma resolve2_optional (rule : JsVal -> Prop) (v : JsVal) (d : JsNum) :
  optional rule v -> rule (JNum d) -> rule (resolve2 v d).
Proof.
  intros [-> | H] Hd; [exact Hd |].
  unfold resolve2. destruct v; simpl; auto.
Qed.

Lemma resolve2_supplied (v : JsVal) (d n : JsNum) :
  resolve2 v d = JNum n ->
  (forall m, v = JNum m -> n = m) /\ (v = JUndefined -> n = d).
Proof.
  unfold resolve2. destruct v; simpl; intros H; split; intros; try congruence.
Qed.

(** The claim of C3 holds of the second revision: a valid partial option
    object resolves, every supplied field is kept as it is, 0 for ttl
    included, and every field left out is the default of the instance. *)
Theorem getOptions2_resolves self o :
  valid_defaults self -> valid_partial o ->
  exists options,
    Lock2.getOptions self o = Ok options /\
    (forall n, o_retryLimit o = JNum n -> retryLimit options = n) /\
    (o_retryLimit o = JUndefined -> retryLimit options = Lock2.defaultRetryLimit self) /\
    (forall n, o_retryDelay o = JNum n -> retryDelay options = n) /\
    (o_retryDelay o = JUndefined -> retryDelay options = Lock2.defaultRetryDelay self) /\
    (forall n, o_ttl o = JNum n -> ttl options = n) /\
    (o_ttl o = JUndefined -> ttl options = Lock2.defaultTtl self).
Proof.
  intros (D1 & D2 & D3) (P1 & P2 & P3).
  pose proof (resolve2_optional _ _ _ P1 D1) as R1.
  pose proof (resolve2_optional _ _ _ P2 D2) as R2.
  pose proof (resolve2_optional _ _ _ P3 D3) as R3.
  apply number_where_gt0 in R1 as [rl E1].
  apply number_where_gt0 in R2 as [rd E2].
  apply number_where_ge0 in R3 as [t E3].
  exists (mkOptions rl rd t).
  rewrite getOptions2_unfold, E1, E2, E3. split; [reflexivity |].
  apply number_where_Some in E1 as [E1 _].
  apply number_where_Some in E2 as [E2 _].
  apply number_where_Some in E3 as [E3 _].
  apply resolve2_supplied in E1 as [? ?].
  apply resolve2_supplied in E2 as [? ?].
  apply resolve2_supplied in E3 as [? ?].
  simpl. repeat split; assumption.
Qed.

Lemma getOptions2_ttl0 self :
  valid_defaults self ->
  Lock2.getOptions self (only_ttl (JNum (num 0))) =
  Ok (mkOptions (Lock2.defaultRetryLimit self) (Lock2.defaultRetryDelay self) (num 0)).
Proof.
  intros (D1 & D2 & _). rewrite getOptions2_unfold. simpl.
  apply num_gt0_spec in D1, D2. unfold resolve2; simpl. rewrite D1, D2. reflexivity.
Qed.

(** The claim of C4 holds of the second revision: [getOptions] throws the
    error of the first resolved field that breaks its rule, and only then;
    when it returns, the numbers it returns are the resolved values
    themselves. *)
Theorem getOptions2_throws_iff self o :
  let rl := resolve2 (o_retryLimit o) (Lock2.defaultRetryLimit self) in
  let rd := resolve2 (o_retryDelay o) (Lock2.defaultRetryDelay self) in
  let t := resolve2 (o_ttl o) (Lock2.defaultTtl self) in
  (Lock2.getOptions self o = Throw Lock2.errRetryLimit <-> ~ number_gt0 rl) /\
  (Lock2.getOptions self o = Throw Lock2.errRetryDelay <->
     number_gt0 rl /\ ~ number_gt0 rd) /\
  (Lock2.getOptions self o = Throw Lock2.errTtl <->
     number_gt0 rl /\ number_gt0 rd /\ ~ number_ge0 t) /\
  (forall options, Lock2.getOptions self o = Ok options <->
     (rl = JNum (retryLimit options) /\ rd = JNum (retryDelay options) /\
      t = JNum (ttl options)) /\
     number_gt0 rl /\ number_gt0 rd /\ number_ge0 t).
Proof.
  intros rl rd t. rewrite getOptions2_unfold. fold rl rd t.
  pose proof (number_where_None_gt0 rl) as N1.
  pose proof (number_where_None_gt0 rd) as N2.
  pose proof (number_where_None_ge0 t) as N3.
  pose proof (number_where_gt0 rl) as S1.
  pose proof (number_where_gt0 rd) as S2.
  pose proof (number_where_ge0 t) as S3.
  pose proof (number_where_Some num_gt0 rl) as V1.
  pose proof (number_where_Some num_gt0 rd) as V2.
  pose proof (number_where_Some num_ge0 t) as V3.
  destruct (number_where num_gt0 rl) as [x|];
    [destruct (number_where num_gt0 rd) as [y|];
     [destruct (number_where num_ge0 t) as [z|] |] |].
  all: assert (forall A (a : A), exists b, Some a = Some b) as Hex by eauto.
  all: repeat split; try discriminate; try tauto.
  all: try (intros; exfalso; intuition (eauto; discriminate)).
  all: try (apply S1; eauto); try (apply S2; eauto); try (apply S3; eauto).
  all: destruct (proj1 (V1 x) eq_refl) as [E1' _].
  all: destruct (proj1 (V2 y) eq_refl) as [E2' _].
  all: destruct (proj1 (V3 z) eq_refl) as [E3' _].
  all: destruct options as [a b c]; simpl in *.
  all: intuition congruence.
Qed.
End Options2.

Section Options2_cases.
Context {W : Type}.
Implicit Types (self : @Lock2.Lock W).

Lemma Qle_0_not_gt0 (q : Q) : (q <= 0)%Q -> num_gt0 (Fin q) = false.
Proof. intros H. simpl. now apply Qltb_ge. Qed.

Lemma Qlt_0_not_ge0 (q : Q) : (q < 0)%Q -> num_ge0 (Fin q) = false.
Proof. intros H. simpl. apply negb_false_iff. now apply Qltb_lt. Qed.

(** [getOptions({ retryLimit: q })] with [q <= 0] fails on retryLimit. *)
Lemma getOptions2_retryLimit_le0 self (q : Q) :
  (q <= 0)%Q ->
  Lock2.getOptions self (only_retryLimit (JNum (Fin q))) = Throw Lock2.errRetryLimit.
Proof.
  intros H. rewrite getOptions2_unfold. unfold resolve2. simpl number_where.
  change (Qltb 0 q) with (num_gt0 (Fin q)). now rewrite Qle_0_not_gt0.
Qed.

(** [getOptions({ retryDelay: q })] with [q <= 0], 0 included, fails on
    retryDelay. *)
Lemma getOptions2_retryDelay_le0 self (q : Q) :
  valid_defaults self -> (q <= 0)%Q ->
  Lock2.getOptions self (only_retryDelay (JNum (Fin q))) = Throw Lock2.errRetryDelay.
Proof.
  intros (D1 & _) H. rewrite getOptions2_unfold. unfold resolve2. simpl.
  apply num_gt0_spec in D1. rewrite D1.
  change (Qltb 0 q) with (num_gt0 (Fin q)). now rewrite Qle_0_not_gt0.
Qed.

(** [getOptions({ ttl: q })] with [q < 0] fails on ttl. *)
Lemma getOptions2_ttl_lt0 self (q : Q) :
  valid_defaults self -> (q < 0)%Q ->
  Lock2.getOptions self (only_ttl (JNum (Fin q))) = Throw Lock2.errTtl.
Proof.
  intros (D1 & D2 & _) H. rewrite getOptions2_unfold. unfold resolve2. simpl.
  apply num_gt0_spec in D1, D2. rewrite D1, D2.
  change (negb (Qltb q 0)) with (num_ge0 (Fin q)). now rewrite Qlt_0_not_ge0.
Qed.

(** A value that is not a number is refused, not converted. *)
Lemma getOptions2_retryLimit_string self (s : string) :
  Lock2.getOptions self (only_retryLimit (JStr s)) = Throw Lock2.errRetryLimit.
Proof. reflexivity. Qed.

(** What [getOptions] returns meets the rules. *)
Lemma getOptions2_checked self o options :
  Lock2.getOptions self o = Ok options ->
  num_gt0 (retryLimit options) = true /\
  num_gt0 (retryDelay options) = true /\
  num_ge0 (ttl options) = true.
Proof.
  rewrite getOptions2_unfold.
  destruct (number_where num_gt0 _) as [x|] eqn:E1; [| discriminate].
  destruct (number_where num_gt0 (resolve2 (o_retryDelay o) _)) as [y|] eqn:E2;
    [| discriminate].
  destruct (number_where num_ge0 _) as [z|] eqn:E3; [| discriminate].
  intros H. injection H as <-. simpl.
  apply number_where_Some in E1 as [_ E1], E2 as [_ E2], E3 as [_ E3]. auto.
Qed.
End Options2_cases.

(** ** Option resolution, first revision *)

Section Options1.
Context {W : Type}.
Implicit Types (self : @Lock1.Lock W).

Lemma getOptions1_checked self o options :
  Lock1.getOptions self o = Ok options ->
  num_gt0 (retryLimit options) = true /\
  num_gt0 (retryDelay options) = true /\
  num_ge0 (ttl options) = true.
Proof.
  unfold Lock1.getOptions.
  destruct (number_where num_gt0 _) as [x|] eqn:E1; [| discriminate].
  destruct (number_where num_gt0 (js_or (o_retryDelay o) _)) as [y|] eqn:E2;
    [| discriminate].
  destruct (number_where num_ge0 _) as [z|] eqn:E3; [| discriminate].
  intros H. injection H as <-. simpl.
  apply number_where_Some in E1 as [_ E1], E2 as [_ E2], E3 as [_ E3]. auto.
Qed.

(** C3: in the first revision an option that is falsy falls back to the
    default.  On a new instance [getOptions({ ttl: 0 })] returns ttl 3, the
    default, where the claim asks for 0; the second revision returns 0
    ([getOptions2_resolves], [getOptions2_ttl0]). *)
Theorem getOptions1_ttl0_is_default (c : Client W) :
  exists self,
    Lock1.constructor (ClientObj c) no_options = Ok self /\
    Lock1.getOptions self (only_ttl (JNum (num 0))) =
    Ok (mkOptions (num 10) (num 1000) (num 3)) /\
    Lock1.getOptions self (only_ttl (JNum (num 0))) = Lock1.getOptions self no_options.
Proof. eexists. split; [reflexivity |]. split; reflexivity. Qed.

(** C4: in the first revision [getOptions({ retryDelay: 0 })] and
    [getOptions({ retryLimit: 0 })] do not fail: the 0 is replaced by the
    default and the defaults are returned.  The second revision throws
    ([getOptions2_throws_iff], [getOptions2_retryDelay_le0],
    [getOptions2_retryLimit_le0]). *)
Theorem getOptions1_zero_not_refused (c : Client W) :
  exists self,
    Lock1.constructor (ClientObj c) no_options = Ok self /\
    Lock1.getOptions self (only_retryDelay (JNum (num 0))) =
    Ok (mkOptions (num 10) (num 1000) (num 3)) /\
    Lock1.getOptions self (only_retryLimit (JNum (num 0))) =
    Ok (mkOptions (num 10) (num 1000) (num 3)).
Proof. eexists. split; [reflexivity |]. split; reflexivity. Qed.

(** A negative value is truthy, so the first revision refuses it too. *)
Lemma getOptions1_retryLimit_negative self :
  Lock1.getOptions self (only_retryLimit (JNum (num (-1)))) = Throw Lock1.errRetryLimit.
Proof. reflexivity. Qed.
End Options1.

(** ** Construction *)

Section Construction.
Context {W : Type}.

Lemma constructor2_undefined (o : OptionalLockOptions) :
  Lock2.constructor (@NoClient W) o = Throw Lock2.errNoClient.
Proof. reflexivity. Qed.

Lemma constructor1_no_client (o : OptionalLockOptions) :
  Lock1.constructor (@NoClient W) o = Throw Lock1.errNoClient /\
  Lock1.constructor (@NullClient W) o = Throw Lock1.errNoClient.
Proof. split; reflexivity. Qed.

(** With a client, the second revision resolves the options against the
    built-in defaults: an error of [getOptions] is the error of the
    constructor, and what is stored is what [getOptions] returned. *)
Lemma constructor2_validates (redisClient : ClientRef W) (o : OptionalLockOptions) :
  redisClient <> NoClient ->
  (forall e, Lock2.getOptions (Lock2.initial redisClient) o = Throw e ->
             Lock2.constructor redisClient o = Throw e) /\
  (forall self, Lock2.constructor redisClient o = Ok self ->
     Lock2.client self = redisClient /\
     valid_defaults self /\
     Lock2.getOptions (Lock2.initial redisClient) o =
     Ok (mkOptions (Lock2.defaultRetryLimit self) (Lock2.defaultRetryDelay self)
                   (Lock2.defaultTtl self))).
Proof.
  intros Hc. unfold Lock2.constructor.
  assert (Lock2.is_undefined redisClient = false) as ->.
  { destruct redisClient; [congruence | reflexivity | reflexivity]. }
  split.
  - intros e ->. reflexivity.
  - intros self. destruct (Lock2.getOptions _ o) as [d|e] eqn:E; [| discriminate].
    intros H. injection H as <-. simpl. split; [reflexivity |].
    apply getOptions2_checked in E as (E1 & E2 & E3).
    split; [| destruct d; reflexivity].
    unfold valid_defaults; simpl.
    rewrite <- !num_gt0_spec, <- num_ge0_spec. auto.
Qed.

(** The instances of the examples are what the constructors build. *)
Example constructor_of_examples :
  Lock1.constructor (ClientObj (Mock.client always_refusing)) no_options
    = Ok (mock_lock1 always_refusing) /\
  Lock2.constructor (ClientObj (Mock.client always_refusing)) no_options
    = Ok (mock_lock2 always_refusing) /\
  Lock1.constructor (ClientObj Store.client) no_options = Ok store_lock1 /\
  Lock2.constructor (ClientObj Store.client) no_options = Ok store_lock2.
Proof. repeat split; reflexivity. Qed.

(** The test "should override default options if provided". *)
Example constructor_overrides (c : Client W) :
  exists l1 l2,
    Lock2.constructor (ClientObj c) no_options = Ok l1 /\
    Lock2.getOptions l1 no_options = Ok (mkOptions (num 10) (num 100) (num 3)) /\
    Lock2.constructor (ClientObj c)
      (mkPartial (JNum (num 69)) (JNum (num 420)) (JNum (num 1337))) = Ok l2 /\
    Lock2.getOptions l2 no_options = Ok (mkOptions (num 69) (num 420) (num 1337)).
Proof. do 2 eexists. repeat split; reflexivity. Qed.

(** C7: [new Lock(null)] constructs in the second revision, whose guard is
    [redisClient === undefined]; the claim asks for the initialisation
    error, which the first revision, with [!redisClient], throws
    ([constructor1_no_client]).  The first revision in turn stores the
    options without validating them: [new Lock(client, { retryLimit: -1 })]
    constructs and keeps -1 as the default, where the second revision
    throws ([constructor2_validates]). *)
Theorem constructor_gaps (c : Client W) :
  Lock2.constructor (@NullClient W) no_options =
    Ok (Lock2.mkLock NullClient (num 10) (num 100) (num 3)) /\
  Lock1.constructor (ClientObj c) (only_retryLimit (JNum (num (-1)))) =
    Ok (Lock1.mkLock (ClientObj c) (JNum (num (-1))) (JNum (num 1000)) (JNum (num 3))) /\
  Lock2.constructor (ClientObj c) (only_retryLimit (JNum (num (-1)))) =
    Throw Lock2.errRetryLimit.
Proof. repeat split; reflexivity. Qed.
End Construction.

(** ** Runs *)

Lemma num_neq0_spec (n : JsNum) : num_neq0 n = true <-> ~ is_zero n.
Proof.
  unfold is_zero. destruct n as [| | |q]; simpl.
  1-3: split; [intros _ [q [H _]]; discriminate | reflexivity].
  unfold Qzerob. split.
  - intros H [q' [E Hq]]. injection E as <-.
    apply negb_true_iff, Z.eqb_neq in H. apply H.
    unfold Qeq in Hq. simpl in Hq. lia.
  - intros H. apply negb_true_iff, Z.eqb_neq. intros E. apply H.
    exists q. split; [reflexivity |]. unfold Qeq. simpl. lia.
Qed.

Lemma num_truthy_neq0 (n : JsNum) : n <> NaN -> num_truthy n = num_neq0 n.
Proof. destruct n; simpl; congruence. Qed.

Lemma num_ge0_not_NaN (n : JsNum) : num_ge0 n = true -> n <> NaN.
Proof. destruct n; simpl; congruence. Qed.

Lemma calls_app (p : Event -> bool) (l1 l2 : list Event) :
  calls p (l1 ++ l2) = calls p l1 + calls p l2.
Proof. unfold calls. now rewrite List.filter_app, length_app. Qed.




Section Apply.
Context {W : Type}.

(** One attempt of the second revision, call by call. *)
Lemma applyLock2_run (self : @Lock2.Lock W) (c : Client W) key payload t w :
  Lock2.client self = ClientObj c ->
  Lock2.applyLock self key payload t w =
  match cl_setNX c key payload w with
  | (Fulfilled b, w1) =>
      if num_neq0 t && b then
        match cl_expire c key t w1 with
        | (Fulfilled _, w2) => mkRun (Returned b) w2 [EvSetNX key payload; EvExpire key t]
        | (Rejects e, w2) => mkRun (Threw e) w2 [EvSetNX key payload; EvExpire key t]
        end
      else mkRun (Returned b) w1 [EvSetNX key payload]
  | (Rejects e, w1) => mkRun (Threw e) w1 [EvSetNX key payload]
  end.
Proof.
  intros Hc. unfold Lock2.applyLock, bind, client_setNX, client_expire, await.
  rewrite Hc. destruct (cl_setNX c key payload w) as [[b|e] w1]; simpl; [| reflexivity].
  destruct (num_neq0 t && b); simpl; [| reflexivity].
  destruct (cl_expire c key t w1) as [[u|e] w2]; reflexivity.
Qed.

(** The two revisions make the same attempt when the ttl is not [NaN]. *)
Lemma applyLock_revisions (self1 : @Lock1.Lock W) (self2 : @Lock2.Lock W)
    key payload t w :
  Lock1.client self1 = Lock2.client self2 -> t <> NaN ->
  Lock1.applyLock self1 key payload t w = Lock2.applyLock self2 key payload t w.
Proof.
  intros Hc Ht. unfold Lock1.applyLock, Lock2.applyLock.
  rewrite Hc, (num_truthy_neq0 t Ht). reflexivity.
Qed.
End Apply.

Section Attempt.
Context {W : Type}.


End Attempt.


(** The three cases of the test suite. *)
Example applyLock_new_lock :
  let r := Lock2.applyLock (mock_lock2 (Mock.answering (fun _ => true)))
             "beer" "tasty" (num 69) Mock.start in
  outcome r = Returned true /\ trace r = [EvSetNX "beer" "tasty"; EvExpire "beer" (num 69)].
Proof. split; reflexivity. Qed.

Example applyLock_ttl_0 :
  let r := Lock2.applyLock (mock_lock2 (Mock.answering (fun _ => true)))
             "beer" "tasty" (num 0) Mock.start in
  outcome r = Returned true /\ trace r = [EvSetNX "beer" "tasty"].
Proof. split; reflexivity. Qed.

Example applyLock_existing_lock :
  let r := Lock2.applyLock (mock_lock2 (Mock.answering (fun _ => false)))
             "beer" "tasty" (num 1337) Mock.start in
  outcome r = Returned false /\ trace r = [EvSetNX "beer" "tasty"].
Proof. split; reflexivity. Qed.

(** Where the revisions part: a ttl of [NaN], which the first revision can
    only be handed past its own validation. *)
Example applyLock_NaN :
  let sc := Mock.answering (fun _ => true) in
  trace (Lock1.applyLock (mock_lock1 sc) "beer" "tasty" NaN Mock.start)
    = [EvSetNX "beer" "tasty"] /\
  trace (Lock2.applyLock (mock_lock2 sc) "beer" "tasty" NaN Mock.start)
    = [EvSetNX "beer" "tasty"; EvExpire "beer" NaN].
Proof. split; reflexivity. Qed.

(** ** The retry loop *)

Section Loop.
Context {W : Type} (host : Host W).

Lemma retry2_exit rounds (self : @Lock2.Lock W) key payload options b c w :
  negb b && counter_lt c (retryLimit options) = false ->
  Lock2.retry host rounds self key payload options b c w = mkRun (Returned b) w [].
Proof. intros H. destruct rounds; simpl; rewrite H; reflexivity. Qed.


(** One round of the loop: the sleep, the attempt, and the rest. *)
Lemma retry2_round rounds (self : @Lock2.Lock W) key payload options c w :
  counter_lt c (retryLimit options) = true ->
  Lock2.retry host (S rounds) self key payload options false c w =
  let r1 := Lock2.applyLock self key payload (ttl options)
              (h_sleep host (retryDelay options) w) in
  match outcome r1 with
  | Returned b =>
      let r2 := Lock2.retry host rounds self key payload options b (S c) (final r1) in
      mkRun (outcome r2) (final r2)
            (EvSleep (retryDelay options) :: trace r1 ++ trace r2)
  | Threw e => mkRun (Threw e) (final r1) (EvSleep (retryDelay options) :: trace r1)
  | Pending => mkRun Pending (final r1) (EvSleep (retryDelay options) :: trace r1)
  end.
Proof.
  intros H. simpl. rewrite H. simpl. unfold bind, sleep. simpl.
  destruct (outcome (Lock2.applyLock self key payload (ttl options) _)); reflexivity.
Qed.

Lemma retry_revisions rounds (self1 : @Lock1.Lock W) (self2 : @Lock2.Lock W)
    key payload options b c w :
  Lock1.client self1 = Lock2.client self2 -> ttl options <> NaN ->
  Lock1.retry host rounds self1 key payload options b c w =
  Lock2.retry host rounds self2 key payload options b c w.
Proof.
  intros Hc Ht. revert b c w. induction rounds as [|rounds IH]; intros b c w; simpl.
  - reflexivity.
  - destruct (negb b && counter_lt c (retryLimit options)); [| reflexivity].
    unfold bind, sleep. simpl.
    rewrite (applyLock_revisions self1 self2) by assumption.
    destruct (outcome (Lock2.applyLock self2 key payload (ttl options) _));
      try reflexivity.
    rewrite IH. reflexivity.
Qed.

Lemma acquireLock2_options_error rounds (self : @Lock2.Lock W) lockName o e w :
  Lock2.getOptions self o = Throw e ->
  Lock2.acquireLock host rounds self lockName o w = mkRun (Threw e) w [].
Proof. intros H. unfold Lock2.acquireLock, bind. rewrite H. reflexivity. Qed.

Lemma acquireLock2_name_error rounds (self : @Lock2.Lock W) lockName o options e w :
  Lock2.getOptions self o = Ok options ->
  Lock2.getRedisKey lockName = Throw e ->
  Lock2.acquireLock host rounds self lockName o w = mkRun (Threw e) w [].
Proof. intros H1 H2. unfold Lock2.acquireLock, bind. rewrite H1. simpl. rewrite H2. reflexivity. Qed.

(** [acquireLock] past its two checks: the clock is read, the first attempt
    is made, and the loop takes over. *)
Lemma acquireLock2_body rounds (self : @Lock2.Lock W) lockName o options key w :
  Lock2.getOptions self o = Ok options ->
  Lock2.getRedisKey lockName = Ok key ->
  Lock2.acquireLock host rounds self lockName o w =
  let payload := stringify_lockedSince (h_now host w) in
  let r1 := Lock2.applyLock self key payload (ttl options) w in
  match outcome r1 with
  | Returned b =>
      let r2 := Lock2.retry host rounds self key payload options b 0 (final r1) in
      mkRun (outcome r2) (final r2) (EvDate :: trace r1 ++ trace r2)
  | Threw e => mkRun (Threw e) (final r1) (EvDate :: trace r1)
  | Pending => mkRun Pending (final r1) (EvDate :: trace r1)
  end.
Proof.
  intros H1 H2. unfold Lock2.acquireLock.
  unfold bind. rewrite H1. simpl. rewrite H2. simpl.
  destruct (outcome (Lock2.applyLock self key _ (ttl options) w)); reflexivity.
Qed.

(** For a name that is a non-empty string the first revision acquires as
    the second does, once its options are resolved. *)
Lemma acquireLock_revisions rounds (self1 : @Lock1.Lock W) c s o options w :
  Lock1.getOptions self1 o = Ok options ->
  Lock1.acquireLock host rounds self1 (JStr (String c s)) o w =
  Lock2.acquireLock host rounds (as_second self1 options) (JStr (String c s)) no_options w.
Proof.
  intros H. pose proof (getOptions1_checked _ _ _ H) as (C1 & C2 & C3).
  assert (Lock2.getOptions (as_second self1 options) no_options = Ok options) as H2.
  { rewrite getOptions2_unfold. unfold resolve2, as_second. simpl.
    rewrite C1, C2, C3. destruct options; reflexivity. }
  unfold Lock1.acquireLock, Lock2.acquireLock.
  unfold bind. rewrite H, H2. simpl.
  rewrite (applyLock_revisions self1 (as_second self1 options))
    by (try reflexivity; now apply num_ge0_not_NaN).
  destruct (outcome (Lock2.applyLock _ _ _ (ttl options) w)); try reflexivity.
  rewrite (retry_revisions _ self1 (as_second self1 options))
    by (try reflexivity; now apply num_ge0_not_NaN).
  reflexivity.
Qed.
End Loop.

(** ** Counting rounds *)

Lemma counter_lt_rounds_below (c : nat) (q : Q) :
  counter_lt c (Fin q) = true <-> c < rounds_below q.
Proof.
  unfold rounds_below. simpl. rewrite Qltb_lt. split; intros H.
  - assert (inject_Z (Z.of_nat c) < inject_Z (Qceiling q))%Q as H'.
    { eapply Qlt_le_trans; [exact H | apply Qle_ceiling]. }
    rewrite <- Zlt_Qlt in H'. lia.
  - assert (Z.of_nat c <= Qceiling q - 1)%Z as H' by lia.
    rewrite Zle_Qle in H'.
    eapply Qle_lt_trans; [exact H' | apply Qceiling_lt].
Qed.

Lemma rounds_below_integer (q : Q) (n : nat) :
  (q == inject_Z (Z.of_nat n))%Q -> rounds_below q = n.
Proof.
  intros H. unfold rounds_below. rewrite H, Qceiling_Z. apply Nat2Z.id.
Qed.

Lemma counter_lt_integer (limit : JsNum) (n c : nat) :
  is_integer limit n -> counter_lt c limit = (c <? n)%nat.
Proof.
  intros [q [-> Hq]].
  pose proof (counter_lt_rounds_below c q) as H.
  rewrite (rounds_below_integer q n Hq) in H.
  destruct (counter_lt c (Fin q)); destruct (Nat.ltb_spec c n); try reflexivity.
  - assert (c < n) by (now apply H). lia.
  - apply H in H0. discriminate.
Qed.

(** ** The loop against a scripted store *)

Section Scripted.
Variable f : nat -> bool.
Variable self : @Lock2.Lock Mock.World.
Hypothesis Hclient : Lock2.client self = ClientObj (Mock.client (Mock.answering f)).
Variables (key payload : string) (options : LockOptions).

Local Abbreviation host := (Mock.host (Mock.answering f)).




End Scripted.




Section Acquire_scripted.
Variable f : nat -> bool.
Variables (c : ascii) (s : string) (options : LockOptions).
Variable n : nat.
Hypothesis Hlimit : is_integer (retryLimit options) n.

Local Abbreviation host := (Mock.host (Mock.answering f)).
Local Abbreviation key := ("redis-promise-lock:" +:+ String c s).
Local Abbreviation payload := (stringify_lockedSince "2024-01-01T00:00:00.000Z").


End Acquire_scripted.



(** ** Termination *)

Section Termination.
Context {W : Type} (host : Host W).



End Termination.

(** ** Invalid names *)

Lemma getRedisKey_invalid (lockName : JsVal) :
  invalid_name lockName ->
  Lock1.getRedisKey lockName = Throw Lock1.errLockName /\
  Lock2.getRedisKey lockName = Throw Lock2.errLockName.
Proof.
  intros H. destruct lockName as [| |b|n|s|]; try (split; reflexivity).
  destruct s as [|c s]; [split; reflexivity |].
  exfalso. apply (H c s). reflexivity.
Qed.

Lemma name_cases (lockName : JsVal) :
  invalid_name lockName \/ exists c s, lockName = JStr (String c s).
Proof.
  destruct lockName as [| |b|n|s|]; try (left; intros c s' H; discriminate).
  destruct s as [|c s]; [left; intros c s' H; discriminate | right; eauto].
Qed.

Section Revision1.
Context {W : Type} (host : Host W).

Lemma acquireLock1_options_error rounds (self : @Lock1.Lock W) lockName o e w :
  Lock1.getOptions self o = Throw e ->
  Lock1.acquireLock host rounds self lockName o w = mkRun (Threw e) w [].
Proof. intros H. unfold Lock1.acquireLock, bind. rewrite H. reflexivity. Qed.

Lemma acquireLock1_name_error rounds (self : @Lock1.Lock W) lockName o options e w :
  Lock1.getOptions self o = Ok options ->
  Lock1.getRedisKey lockName = Throw e ->
  Lock1.acquireLock host rounds self lockName o w = mkRun (Threw e) w [].
Proof. intros H1 H2. unfold Lock1.acquireLock, bind. rewrite H1. simpl. rewrite H2. reflexivity. Qed.

Lemma as_second_options (self : @Lock1.Lock W) o options :
  Lock1.getOptions self o = Ok options ->
  Lock2.getOptions (as_second self options) no_options = Ok options.
Proof.
  intros Ho. pose proof (getOptions1_checked _ _ _ Ho) as (C1 & C2 & C3).
  rewrite getOptions2_unfold. unfold resolve2, as_second. simpl.
  rewrite C1, C2, C3. destruct options; reflexivity.
Qed.

End Revision1.

(** C8: with a name that is missing, empty or not a string, and options
    that resolve, [acquireLock] and [releaseLock] throw the invalid-name
    error with an empty trace and the world as it was: no [setNX], no
    [expire], no [del], nor a sleep, comes before the error. *)
Theorem invalid_name_no_store_call {W : Type} (host : Host W)
    (self1 : @Lock1.Lock W) (self2 : @Lock2.Lock W) (lockName : JsVal)
    (o1 o2 : OptionalLockOptions) (rounds : nat) (w : W) :
  invalid_name lockName ->
  (exists options, Lock1.getOptions self1 o1 = Ok options) ->
  (exists options, Lock2.getOptions self2 o2 = Ok options) ->
  Lock1.acquireLock host rounds self1 lockName o1 w = mkRun (Threw Lock1.errLockName) w [] /\
  Lock2.acquireLock host rounds self2 lockName o2 w = mkRun (Threw Lock2.errLockName) w [] /\
  Lock1.releaseLock self1 lockName w = mkRun (Threw Lock1.errLockName) w [] /\
  Lock2.releaseLock self2 lockName w = mkRun (Threw Lock2.errLockName) w [].
Proof.
  intros Hbad [options1 H1] [options2 H2].
  destruct (getRedisKey_invalid lockName Hbad) as [E1 E2].
  repeat split.
  - now apply acquireLock1_name_error with (options := options1).
  - now apply acquireLock2_name_error with (options := options2).
  - unfold Lock1.releaseLock, bind. rewrite E1. reflexivity.
  - unfold Lock2.releaseLock, bind. rewrite E2. reflexivity.
Qed.

Lemma invalid_name_no_store_call_witness :
  Lock1.acquireLock (Mock.host always_refusing) 5 (mock_lock1 always_refusing)
    (JStr "") no_options Mock.start = mkRun (Threw Lock1.errLockName) Mock.start [] /\
  Lock2.acquireLock (Mock.host always_refusing) 5 (mock_lock2 always_refusing)
    (JStr "") no_options Mock.start = mkRun (Threw Lock2.errLockName) Mock.start [] /\
  Lock1.releaseLock (mock_lock1 always_refusing) (JStr "") Mock.start
    = mkRun (Threw Lock1.errLockName) Mock.start [] /\
  Lock2.releaseLock (mock_lock2 always_refusing) (JStr "") Mock.start
    = mkRun (Threw Lock2.errLockName) Mock.start [].
Proof.
  apply (invalid_name_no_store_call (Mock.host always_refusing)
           (mock_lock1 always_refusing) (mock_lock2 always_refusing)
           (JStr "") no_options no_options 5 Mock.start).
  - intros c s H. discriminate H.
  - eexists. reflexivity.
  - eexists. reflexivity.
Defined.

(** The other names the tests try: none, and a number. *)
Example acquireLock_without_name :
  Lock2.acquireLock (Mock.host always_refusing) 5 (mock_lock2 always_refusing)
    JUndefined no_options Mock.start = mkRun (Threw Lock2.errLockName) Mock.start [] /\
  Lock2.releaseLock (mock_lock2 always_refusing) (JNum (num 6969)) Mock.start
    = mkRun (Threw Lock2.errLockName) Mock.start [].
Proof. split; reflexivity. Qed.

(** Invalid options come first: their error is the one thrown. *)
Example acquireLock_options_before_name :
  Lock2.acquireLock (Mock.host always_refusing) 5 (mock_lock2 always_refusing)
    (JStr "") (only_retryLimit (JNum (num 0))) Mock.start
  = mkRun (Threw Lock2.errRetryLimit) Mock.start [].
Proof. reflexivity. Qed.





(** A limit that is not an integer: with [retryLimit: 0.5] a second attempt
    is made, one more than [retryLimit + 1] allows. *)
Example acquireLock_half :
  calls is_setNX
    (trace (Lock2.acquireLock (Mock.host always_refusing) 5 (mock_lock2 always_refusing)
              (JStr "beer") (only_retryLimit (JNum (Fin (1 # 2)))) Mock.start)) = 2 /\
  outcome (Lock2.acquireLock (Mock.host always_refusing) 5 (mock_lock2 always_refusing)
             (JStr "beer") (only_retryLimit (JNum (Fin (1 # 2)))) Mock.start)
    = Returned false.
Proof. split; reflexivity. Qed.

(** ** Release *)

Section Release.
Context {W : Type}.

Lemma releaseLock2_run (self : @Lock2.Lock W) (cl : Client W) c s w :
  Lock2.client self = ClientObj cl ->
  Lock2.releaseLock self (JStr (String c s)) w =
  mkRun (match fst (cl_del cl ("redis-promise-lock:" +:+ String c s) w) with
         | Fulfilled _ => Returned tt
         | Rejects e => Threw e
         end)
        (snd (cl_del cl ("redis-promise-lock:" +:+ String c s) w))
        [EvDel ("redis-promise-lock:" +:+ String c s)].
Proof.
  intros Hc. unfold Lock2.releaseLock, bind, client_del, await. simpl.
  rewrite Hc.
  destruct (cl_del cl _ w) as [[[]|e] w1]; reflexivity.
Qed.

Lemma releaseLock_revisions (self1 : @Lock1.Lock W) (self2 : @Lock2.Lock W) c s w :
  Lock1.client self1 = Lock2.client self2 ->
  Lock1.releaseLock self1 (JStr (String c s)) w =
  Lock2.releaseLock self2 (JStr (String c s)) w.
Proof.
  intros Hc. unfold Lock1.releaseLock, Lock2.releaseLock, bind. simpl. rewrite Hc.
  reflexivity.
Qed.
End Release.

Lemma store_del_of_absent : del_of_absent_is_noop Store.client.
Proof.
  intros key st. simpl. unfold Store.del. simpl. now rewrite delete_delete_eq.
Qed.

(** C6: for a name that is a non-empty string [releaseLock] makes one call
    of the store and no other: [del], with the key [getRedisKey] gives for
    the name, whoever holds the lock.  Where deleting an absent key changes
    nothing, releasing again returns normally and leaves the store as the
    first release left it.  Both revisions. *)
Theorem releaseLock_deletes_once {W : Type} (cl : Client W)
    (self1 : @Lock1.Lock W) (self2 : @Lock2.Lock W) (c : ascii) (s : string) (w : W) :
  Lock1.client self1 = ClientObj cl ->
  Lock2.client self2 = ClientObj cl ->
  exists key,
    Lock1.getRedisKey (JStr (String c s)) = Ok key /\
    Lock2.getRedisKey (JStr (String c s)) = Ok key /\
    Lock2.releaseLock self2 (JStr (String c s)) w =
      mkRun (match fst (cl_del cl key w) with
             | Fulfilled _ => Returned tt
             | Rejects e => Threw e
             end) (snd (cl_del cl key w)) [EvDel key] /\
    Lock1.releaseLock self1 (JStr (String c s)) w =
      Lock2.releaseLock self2 (JStr (String c s)) w /\
    (del_of_absent_is_noop cl ->
     Lock2.releaseLock self2 (JStr (String c s))
       (final (Lock2.releaseLock self2 (JStr (String c s)) w)) =
     mkRun (Returned tt) (final (Lock2.releaseLock self2 (JStr (String c s)) w))
           [EvDel key]).
Proof.
  intros H1 H2. exists ("redis-promise-lock:" +:+ String c s).
  split; [reflexivity | split; [reflexivity |]].
  split; [now apply releaseLock2_run |].
  split; [apply releaseLock_revisions; congruence |].
  intros Hdel.
  rewrite (releaseLock2_run self2 cl c s w H2). cbn [final].
  rewrite (releaseLock2_run self2 cl c s _ H2).
  rewrite Hdel. reflexivity.
Qed.

(** The test of the suite: releasing ["gunna"] deletes the prefixed key;
    here the store holds the lock, and a second release finds it gone. *)
Lemma releaseLock_deletes_once_witness :
  Lock2.releaseLock store_lock2 (JStr "gunna") gunna_locked =
    mkRun (Returned tt) ∅ [EvDel "redis-promise-lock:gunna"] /\
  Lock1.releaseLock store_lock1 (JStr "gunna") gunna_locked =
    mkRun (Returned tt) ∅ [EvDel "redis-promise-lock:gunna"] /\
  Lock2.releaseLock store_lock2 (JStr "gunna") ∅ =
    mkRun (Returned tt) ∅ [EvDel "redis-promise-lock:gunna"].
Proof.
  destruct (releaseLock_deletes_once Store.client store_lock1 store_lock2
              "g" "unna" gunna_locked eq_refl eq_refl)
    as (key & K1 & K2 & R2 & R1 & Again).
  injection K2 as <-.
  specialize (Again store_del_of_absent).
  assert (final (Lock2.releaseLock store_lock2 (JStr "gunna") gunna_locked) = ∅) as E.
  { rewrite R2. cbn [final]. simpl. unfold gunna_locked.
    apply delete_insert_id. apply lookup_empty. }
  rewrite E in Again.
  assert (Lock2.releaseLock store_lock2 (JStr "gunna") gunna_locked =
          mkRun (Returned tt) ∅ [EvDel "redis-promise-lock:gunna"]) as E2.
  { rewrite R2. rewrite R2 in E. cbn [final] in E. rewrite E. reflexivity. }
  split; [exact E2 | split; [rewrite R1; exact E2 | exact Again]].
Defined.

(** ** The payload *)




Section Payload.
Context {W : Type} (host : Host W).




End Payload.


(** The second attempt succeeds, a second after the call started: the
    record still carries the time of the start. *)
(** ** The reference store, end to end *)

(** A lock is taken on an empty store and the record gets the default ttl;
    a second caller is refused eleven times, does not touch the ttl and
    leaves the store as it was; after a release the lock can be taken
    again. *)
Example store_scenario :
  let key := "redis-promise-lock:gunna" in
  let payload := stringify_lockedSince "2024-01-01T00:00:00.000Z" in
  let r1 := Lock2.acquireLock Store.host 10 store_lock2 (JStr "gunna") no_options ∅ in
  let r2 := Lock2.acquireLock Store.host 10 store_lock2 (JStr "gunna") no_options (final r1) in
  let r3 := Lock2.releaseLock store_lock2 (JStr "gunna") (final r2) in
  let r4 := Lock2.acquireLock Store.host 10 store_lock2 (JStr "gunna") (only_ttl (JNum (num 0)))
              (final r3) in
  outcome r1 = Returned true /\
  trace r1 = [EvDate; EvSetNX key payload; EvExpire key (num 3)] /\
  final r1 = <[key := Store.mkEntry payload (Some (num 3))]> ∅ /\
  outcome r2 = Returned false /\
  calls is_setNX (trace r2) = 11 /\ calls is_sleep (trace r2) = 10 /\
  calls is_expire (trace r2) = 0 /\
  final r2 = final r1 /\
  final r3 = ∅ /\
  outcome r4 = Returned true /\
  final r4 = <[key := Store.mkEntry payload None]> ∅.
Proof. vm_compute. repeat split; reflexivity. Qed.

Example acquireLock_payload_of_start :
  let r := Lock2.acquireLock (Mock.host ticking) 5 (mock_lock2 ticking)
             (JStr "beer") scenario_options Mock.start in
  outcome r = Returned true /\
  trace r =
    [EvDate;
     EvSetNX "redis-promise-lock:beer" (stringify_lockedSince "2024-01-01T00:00:00.000Z");
     EvSleep (num 10);
     EvSetNX "redis-promise-lock:beer" (stringify_lockedSince "2024-01-01T00:00:00.000Z");
     EvExpire "redis-promise-lock:beer" (num 5)] /\
  h_now (Mock.host ticking) (final r) = "2024-01-01T00:00:01.000Z".
Proof. repeat split; reflexivity. Qed.

(** * Further properties of the code *)

(** ** Keys *)

Lemma append_inj_l (p x y : string) : p +:+ x = p +:+ y -> x = y.
Proof.
  induction p as [|a p IH]; simpl; intros H; [exact H |].
  injection H as H. now apply IH.
Qed.

Lemma getRedisKey_Ok (lockName : JsVal) (k : string) :
  Lock1.getRedisKey lockName = Ok k \/ Lock2.getRedisKey lockName = Ok k ->
  exists c s, lockName = JStr (String c s) /\ k = packageName +:+ ":" +:+ String c s.
Proof.
  destruct lockName as [| |b|n|s|]; try (intros [H | H]; discriminate).
  destruct s as [|c s]; [intros [H | H]; discriminate |].
  intros [H | H]; injection H as <-; eauto.
Qed.

(** X1: two names with the same key are the same name, within a revision
    and across the two: the key is the prefix and the name, so locks of
    different names never meet on one record. *)
Theorem getRedisKey_injective (a b : JsVal) (k : string) :
  Lock1.getRedisKey a = Ok k \/ Lock2.getRedisKey a = Ok k ->
  Lock1.getRedisKey b = Ok k \/ Lock2.getRedisKey b = Ok k ->
  a = b.
Proof.
  intros Ha Hb.
  apply getRedisKey_Ok in Ha as (c & s & -> & Hk).
  apply getRedisKey_Ok in Hb as (c' & s' & -> & Hk').
  rewrite Hk in Hk'. apply append_inj_l, append_inj_l in Hk'. now rewrite Hk'.
Qed.

Lemma getRedisKey_injective_witness : JStr "beer" = JStr "beer".
Proof.
  apply (getRedisKey_injective (JStr "beer") (JStr "beer") "redis-promise-lock:beer").
  - left. reflexivity.
  - right. reflexivity.
Defined.

(** ** Options *)

Section On_instances.
Context {W : Type}.

(** X2: on every instance the constructor of the second revision returns,
    a valid partial option object resolves: each field that is supplied
    comes back as it is, 0 for ttl included, and each field left out comes
    back as the default of the instance. *)
Theorem getOptions2_on_instance (redisClient : ClientRef W) (d o : OptionalLockOptions)
    (self : @Lock2.Lock W) :
  Lock2.constructor redisClient d = Ok self ->
  valid_partial o ->
  exists options,
    Lock2.getOptions self o = Ok options /\
    (forall n, o_retryLimit o = JNum n -> retryLimit options = n) /\
    (o_retryLimit o = JUndefined -> retryLimit options = Lock2.defaultRetryLimit self) /\
    (forall n, o_retryDelay o = JNum n -> retryDelay options = n) /\
    (o_retryDelay o = JUndefined -> retryDelay options = Lock2.defaultRetryDelay self) /\
    (forall n, o_ttl o = JNum n -> ttl options = n) /\
    (o_ttl o = JUndefined -> ttl options = Lock2.defaultTtl self).
Proof.
  intros H P.
  assert (redisClient <> NoClient) as Hc by (intros ->; discriminate H).
  destruct (constructor2_validates redisClient d Hc) as [_ Hok].
  destruct (Hok self H) as (_ & D & _).
  now apply getOptions2_resolves.
Qed.

(** X3: what [getOptions] returns meets the rules, in both revisions: a
    retry limit and a retry delay greater than 0 and a ttl of at least 0.
    In the second revision each returned field is moreover the supplied
    value itself whenever one was supplied: a value of another type, or out
    of range, never comes back converted. *)
Theorem getOptions_returns_valid (self1 : @Lock1.Lock W) (self2 : @Lock2.Lock W)
    (o : OptionalLockOptions) (options : LockOptions) :
  (Lock1.getOptions self1 o = Ok options ->
   number_gt0 (JNum (retryLimit options)) /\
   number_gt0 (JNum (retryDelay options)) /\
   number_ge0 (JNum (ttl options))) /\
  (Lock2.getOptions self2 o = Ok options ->
   (number_gt0 (JNum (retryLimit options)) /\
    number_gt0 (JNum (retryDelay options)) /\
    number_ge0 (JNum (ttl options))) /\
   (o_retryLimit o = JUndefined \/ o_retryLimit o = JNum (retryLimit options)) /\
   (o_retryDelay o = JUndefined \/ o_retryDelay o = JNum (retryDelay options)) /\
   (o_ttl o = JUndefined \/ o_ttl o = JNum (ttl options))).
Proof.
  split; intros H.
  - apply getOptions1_checked in H as (C1 & C2 & C3).
    rewrite <- !num_gt0_spec, <- num_ge0_spec. auto.
  - pose proof (getOptions2_checked _ _ _ H) as (C1 & C2 & C3).
    split; [rewrite <- !num_gt0_spec, <- num_ge0_spec; auto |].
    rewrite getOptions2_unfold in H.
    destruct (number_where num_gt0 _) as [x|] eqn:E1; [| discriminate].
    destruct (number_where num_gt0 (resolve2 (o_retryDelay o) _)) as [y|] eqn:E2;
      [| discriminate].
    destruct (number_where num_ge0 _) as [z|] eqn:E3; [| discriminate].
    injection H as <-. simpl.
    apply number_where_Some in E1 as [E1 _], E2 as [E2 _], E3 as [E3 _].
    unfold resolve2 in E1, E2, E3.
    repeat split.
    + destruct (o_retryLimit o); simpl in E1; auto.
    + destruct (o_retryDelay o); simpl in E2; auto.
    + destruct (o_ttl o); simpl in E3; auto.
Qed.
End On_instances.

Lemma getOptions2_on_instance_witness :
  exists options,
    Lock2.getOptions (mock_lock2 always_refusing) (only_ttl (JNum (num 0))) = Ok options /\
    ttl options = num 0 /\
    retryLimit options = num 10 /\ retryDelay options = num 100.
Proof.
  assert (valid_partial (only_ttl (JNum (num 0)))) as P.
  { repeat split; [left; reflexivity | left; reflexivity |].
    right. apply num_ge0_spec. reflexivity. }
  destruct (getOptions2_on_instance (ClientObj (Mock.client always_refusing))
              no_options (only_ttl (JNum (num 0))) (mock_lock2 always_refusing)
              eq_refl P)
    as (options & E & _ & L & _ & Dl & T & _).
  exists options. split; [exact E |]. split; [now apply T |].
  split; [now apply L | now apply Dl].
Defined.

Lemma getOptions_returns_valid_witness :
  number_gt0 (JNum (num 3)) /\ number_gt0 (JNum (num 10)) /\ number_ge0 (JNum (num 5)).
Proof.
  destruct (getOptions_returns_valid (mock_lock1 always_refusing)
              (mock_lock2 always_refusing) scenario_options
              (mkOptions (num 3) (num 10) (num 5))) as [H1 _].
  exact (H1 eq_refl).
Defined.

Section Instances.
Context {W : Type}.

(** X4: an instance the constructor of the second revision returns holds
    defaults that meet the rules, so its [getOptions()] without overrides
    never throws and gives the defaults back. *)
Theorem constructor2_defaults_hold (redisClient : ClientRef W) (o : OptionalLockOptions)
    (self : @Lock2.Lock W) :
  Lock2.constructor redisClient o = Ok self ->
  valid_defaults self /\
  Lock2.getOptions self no_options =
    Ok (mkOptions (Lock2.defaultRetryLimit self) (Lock2.defaultRetryDelay self)
                  (Lock2.defaultTtl self)).
Proof.
  intros H.
  assert (redisClient <> NoClient) as Hc.
  { intros ->. discriminate H. }
  destruct (constructor2_validates redisClient o Hc) as [_ Hok].
  destruct (Hok self H) as (_ & D & _). split; [exact D |].
  destruct D as (D1 & D2 & D3).
  apply num_gt0_spec in D1, D2. apply num_ge0_spec in D3.
  rewrite getOptions2_unfold. unfold resolve2. simpl. rewrite D1, D2, D3. reflexivity.
Qed.

(** X6: the two revisions of [getOptions] differ only on falsy fields:
    over the same defaults the first revision resolves a partial object as
    the second resolves it with its falsy fields left out, errors
    included. *)
Theorem getOptions_revisions (self1 : @Lock1.Lock W) (self2 : @Lock2.Lock W)
    (o : OptionalLockOptions) :
  same_defaults self1 self2 ->
  Lock1.getOptions self1 o = Lock2.getOptions self2 (erase_falsy o).
Proof.
  intros (D1 & D2 & D3). rewrite getOptions2_unfold. unfold Lock1.getOptions.
  assert (forall v d1 d2, d1 = JNum d2 -> js_or v d1 = resolve2 (unset_if_falsy v) d2) as R.
  { intros v d1 d2 ->. unfold js_or, resolve2, unset_if_falsy.
    destruct (truthy v) eqn:E; [| reflexivity].
    destruct v; try discriminate E; reflexivity. }
  simpl. rewrite (R _ _ _ D1), (R _ _ _ D2), (R _ _ _ D3). reflexivity.
Qed.
End Instances.

Lemma constructor2_defaults_hold_witness :
  Lock2.getOptions (mock_lock2 always_refusing) no_options =
    Ok (mkOptions (num 10) (num 100) (num 3)).
Proof.
  exact (proj2 (constructor2_defaults_hold (ClientObj (Mock.client always_refusing))
                  no_options (mock_lock2 always_refusing) eq_refl)).
Defined.

Lemma getOptions_revisions_witness :
  Lock1.getOptions (Lock1.mkLock (ClientObj (Mock.client always_refusing))
                      (JNum (num 10)) (JNum (num 100)) (JNum (num 3)))
                   (mkPartial (JNum (num 0)) (JStr "") (JNum (num 7)))
  = Ok (mkOptions (num 10) (num 100) (num 7)).
Proof.
  rewrite (getOptions_revisions _ (mock_lock2 always_refusing)).
  - reflexivity.
  - repeat split; reflexivity.
Defined.

(** ** An instance acts through its client and its resolved options *)

Section Through_client.
Context {W : Type} (host : Host W).

Lemma applyLock1_client (self self' : @Lock1.Lock W) key payload t w :
  Lock1.client self = Lock1.client self' ->
  Lock1.applyLock self key payload t w = Lock1.applyLock self' key payload t w.
Proof. intros H. unfold Lock1.applyLock. now rewrite H. Qed.

Lemma applyLock2_client (self self' : @Lock2.Lock W) key payload t w :
  Lock2.client self = Lock2.client self' ->
  Lock2.applyLock self key payload t w = Lock2.applyLock self' key payload t w.
Proof. intros H. unfold Lock2.applyLock. now rewrite H. Qed.

Lemma retry1_client (self self' : @Lock1.Lock W) key payload options :
  Lock1.client self = Lock1.client self' ->
  forall rounds b c w,
    Lock1.retry host rounds self key payload options b c w =
    Lock1.retry host rounds self' key payload options b c w.
Proof.
  intros H. induction rounds as [|rounds IH]; intros b c w; simpl; [reflexivity |].
  destruct (negb b && counter_lt c (retryLimit options)); [| reflexivity].
  unfold bind, sleep. simpl. rewrite (applyLock1_client self self') by exact H.
  destruct (outcome (Lock1.applyLock self' key payload (ttl options) _));
    try reflexivity.
  now rewrite IH.
Qed.

Lemma retry2_client (self self' : @Lock2.Lock W) key payload options :
  Lock2.client self = Lock2.client self' ->
  forall rounds b c w,
    Lock2.retry host rounds self key payload options b c w =
    Lock2.retry host rounds self' key payload options b c w.
Proof.
  intros H. induction rounds as [|rounds IH]; intros b c w; simpl; [reflexivity |].
  destruct (negb b && counter_lt c (retryLimit options)); [| reflexivity].
  unfold bind, sleep. simpl. rewrite (applyLock2_client self self') by exact H.
  destruct (outcome (Lock2.applyLock self' key payload (ttl options) _));
    try reflexivity.
  now rewrite IH.
Qed.

Lemma acquireLock1_through (self self' : @Lock1.Lock W) o o' rounds lockName w :
  Lock1.client self = Lock1.client self' ->
  Lock1.getOptions self o = Lock1.getOptions self' o' ->
  Lock1.acquireLock host rounds self lockName o w =
  Lock1.acquireLock host rounds self' lockName o' w.
Proof.
  intros Hc Ho. unfold Lock1.acquireLock, bind. rewrite Ho.
  destruct (Lock1.getOptions self' o') as [options|e]; simpl; [| reflexivity].
  destruct (Lock1.getRedisKey lockName) as [key|e]; simpl; [| reflexivity].
  rewrite (applyLock1_client self self') by exact Hc.
  destruct (outcome (Lock1.applyLock self' key _ (ttl options) w)); try reflexivity.
  now rewrite (retry1_client self self').
Qed.

Lemma acquireLock2_through (self self' : @Lock2.Lock W) o o' rounds lockName w :
  Lock2.client self = Lock2.client self' ->
  Lock2.getOptions self o = Lock2.getOptions self' o' ->
  Lock2.acquireLock host rounds self lockName o w =
  Lock2.acquireLock host rounds self' lockName o' w.
Proof.
  intros Hc Ho. unfold Lock2.acquireLock, bind. rewrite Ho.
  destruct (Lock2.getOptions self' o') as [options|e]; simpl; [| reflexivity].
  destruct (Lock2.getRedisKey lockName) as [key|e]; simpl; [| reflexivity].
  rewrite (applyLock2_client self self') by exact Hc.
  destruct (outcome (Lock2.applyLock self' key _ (ttl options) w)); try reflexivity.
  now rewrite (retry2_client self self').
Qed.

Lemma constructor1_fields (redisClient : ClientRef W) o self :
  Lock1.constructor redisClient o = Ok self ->
  self = Lock1.mkLock redisClient
           (js_or (o_retryLimit o) (JNum (num 10)))
           (js_or (o_retryDelay o) (JNum (num 1000)))
           (js_or (o_ttl o) (JNum (num 3))).
Proof.
  unfold Lock1.constructor. destruct (Lock1.no_client redisClient); [discriminate |].
  intros H. now injection H as <-.
Qed.

(** X5: options handed to the constructor act as the same options handed
    to each call of an instance built without any.  In both revisions
    [new Lock(c, o).getOptions()] is [new Lock(c).getOptions(o)], and
    [new Lock(c, o).acquireLock(name)] runs as
    [new Lock(c).acquireLock(name, o)]. *)
Theorem constructor_options_as_overrides (redisClient : ClientRef W)
    (o : OptionalLockOptions) :
  (forall self fresh,
     Lock1.constructor redisClient o = Ok self ->
     Lock1.constructor redisClient no_options = Ok fresh ->
     Lock1.getOptions self no_options = Lock1.getOptions fresh o /\
     forall rounds lockName w,
       Lock1.acquireLock host rounds self lockName no_options w =
       Lock1.acquireLock host rounds fresh lockName o w) /\
  (forall self fresh,
     Lock2.constructor redisClient o = Ok self ->
     Lock2.constructor redisClient no_options = Ok fresh ->
     Lock2.getOptions self no_options = Lock2.getOptions fresh o /\
     forall rounds lockName w,
       Lock2.acquireLock host rounds self lockName no_options w =
       Lock2.acquireLock host rounds fresh lockName o w).
Proof.
  split; intros self fresh Hs Hf.
  - apply constructor1_fields in Hs, Hf. subst self fresh.
    assert (Lock1.getOptions
              (Lock1.mkLock redisClient (js_or (o_retryLimit o) (JNum (num 10)))
                 (js_or (o_retryDelay o) (JNum (num 1000)))
                 (js_or (o_ttl o) (JNum (num 3)))) no_options =
            Lock1.getOptions
              (Lock1.mkLock redisClient
                 (js_or (o_retryLimit no_options) (JNum (num 10)))
                 (js_or (o_retryDelay no_options) (JNum (num 1000)))
                 (js_or (o_ttl no_options) (JNum (num 3)))) o) as E by reflexivity.
    split; [exact E |]. intros rounds lockName w.
    now apply acquireLock1_through.
  - assert (redisClient <> NoClient) as Hc by (intros ->; discriminate Hs).
    destruct (constructor2_validates redisClient o Hc) as [_ Hok].
    destruct (Hok self Hs) as (Cs & Ds & Es).
    destruct (constructor2_validates redisClient no_options Hc) as [_ Hok'].
    destruct (Hok' fresh Hf) as (Cf & _ & Ef).
    assert (fresh = Lock2.initial redisClient) as ->.
    { destruct fresh as [cl a b c]. simpl in *. subst cl.
      unfold Lock2.initial in *. simpl in Ef. injection Ef as <- <- <-. reflexivity. }
    assert (Lock2.getOptions self no_options =
            Lock2.getOptions (Lock2.initial redisClient) o) as E.
    { rewrite Es. destruct Ds as (D1 & D2 & D3).
      apply num_gt0_spec in D1, D2. apply num_ge0_spec in D3.
      rewrite getOptions2_unfold. unfold resolve2. simpl. rewrite D1, D2, D3.
      reflexivity. }
    split; [exact E |]. intros rounds lockName w.
    apply acquireLock2_through; [congruence | exact E].
Qed.

(** X13: the two revisions run alike where both accept the call: with the
    same client, options that resolve to the same set and a name that is a
    non-empty string, [acquireLock] gives the same run in both, and so does
    [releaseLock]. *)
Theorem revisions_run_alike (self1 : @Lock1.Lock W) (self2 : @Lock2.Lock W)
    (c : ascii) (s : string) (o1 o2 : OptionalLockOptions) (options : LockOptions)
    (rounds : nat) (w : W) :
  Lock1.client self1 = Lock2.client self2 ->
  Lock1.getOptions self1 o1 = Ok options ->
  Lock2.getOptions self2 o2 = Ok options ->
  Lock1.acquireLock host rounds self1 (JStr (String c s)) o1 w =
  Lock2.acquireLock host rounds self2 (JStr (String c s)) o2 w /\
  Lock1.releaseLock self1 (JStr (String c s)) w =
  Lock2.releaseLock self2 (JStr (String c s)) w.
Proof.
  intros Hc H1 H2. split.
  - rewrite (acquireLock_revisions host rounds self1 c s o1 options w H1).
    apply acquireLock2_through; [exact Hc |].
    rewrite H2. now apply as_second_options with (o := o1).
  - now apply releaseLock_revisions.
Qed.
End Through_client.

Lemma constructor_options_as_overrides_witness :
  Lock2.acquireLock (Mock.host third_time_lucky) 2
    (Lock2.mkLock (ClientObj (Mock.client third_time_lucky)) (num 3) (num 10) (num 5))
    (JStr "beer") no_options Mock.start =
  Lock2.acquireLock (Mock.host third_time_lucky) 2 (mock_lock2 third_time_lucky)
    (JStr "beer") scenario_options Mock.start /\
  Lock1.getOptions
    (Lock1.mkLock (ClientObj (Mock.client third_time_lucky))
       (JNum (num 3)) (JNum (num 10)) (JNum (num 5))) no_options =
  Lock1.getOptions (mock_lock1 third_time_lucky) scenario_options.
Proof.
  destruct (constructor_options_as_overrides (Mock.host third_time_lucky)
              (ClientObj (Mock.client third_time_lucky)) scenario_options) as [H1 H2].
  destruct (H2 _ _ eq_refl eq_refl) as [_ A2].
  destruct (H1 _ _ eq_refl eq_refl) as [G1 _].
  split; [apply A2 | exact G1].
Defined.

Lemma revisions_run_alike_witness :
  Lock1.acquireLock (Mock.host third_time_lucky) 2 (mock_lock1 third_time_lucky)
    (JStr "beer") scenario_options Mock.start =
  Lock2.acquireLock (Mock.host third_time_lucky) 2 (mock_lock2 third_time_lucky)
    (JStr "beer") scenario_options Mock.start.
Proof.
  exact (proj1 (revisions_run_alike (Mock.host third_time_lucky)
                  (mock_lock1 third_time_lucky) (mock_lock2 third_time_lucky)
                  "b" "eer" scenario_options scenario_options
                  (mkOptions (num 3) (num 10) (num 5)) 2 Mock.start
                  eq_refl eq_refl eq_refl)).
Defined.

(** ** The shape of every run *)

Section Shape.
Context {W : Type} (host : Host W).

(** One attempt on a client: the [setNX], then at most the [expire]. *)
Lemma applyLock2_shape (self : @Lock2.Lock W) (cl : Client W) key payload t w :
  Lock2.client self = ClientObj cl ->
  exists tail,
    trace (Lock2.applyLock self key payload t w) = EvSetNX key payload :: tail /\
    (tail = [] \/ tail = [EvExpire key t]) /\
    outcome (Lock2.applyLock self key payload t w) <> Pending /\
    (outcome (Lock2.applyLock self key payload t w) = Returned false -> tail = []) /\
    (outcome (Lock2.applyLock self key payload t w) = Returned true ->
     tail = expiry key t).
Proof.
  intros Hc. rewrite (applyLock2_run self cl key payload t w Hc). unfold expiry.
  destruct (cl_setNX cl key payload w) as [[b|e] w1].
  - destruct (num_neq0 t) eqn:Et; destruct b; simpl.
    + destruct (cl_expire cl key t w1) as [[u|e] w2]; simpl;
        (eexists; split; [reflexivity |]);
        repeat split; auto; try discriminate.
    + eexists; split; [reflexivity |]. repeat split; auto; discriminate.
    + eexists; split; [reflexivity |]. repeat split; auto; discriminate.
    + eexists; split; [reflexivity |]. repeat split; auto; discriminate.
  - simpl. eexists; split; [reflexivity |]. repeat split; auto; discriminate.
Qed.

Lemma retry2_shape (self : @Lock2.Lock W) (cl : Client W) key payload options :
  Lock2.client self = ClientObj cl ->
  forall rounds c w,
    let r := Lock2.retry host rounds self key payload options false c w in
    exists m tail,
      m <= rounds /\
      trace r = (retries key payload (retryDelay options) m ++ tail)%list /\
      (tail = [] \/ tail = [EvExpire key (ttl options)]) /\
      (outcome r = Returned false -> tail = []) /\
      (outcome r = Returned true -> tail = expiry key (ttl options)) /\
      (outcome r = Pending -> tail = [] /\ m = rounds).
Proof.
  intros Hc. induction rounds as [|rounds IH]; intros c w r; subst r.
  - exists 0, []. simpl. destruct (counter_lt c (retryLimit options)); simpl;
      repeat split; auto; try lia; discriminate.
  - destruct (counter_lt c (retryLimit options)) eqn:Ec.
    + rewrite retry2_round by exact Ec. cbv zeta.
      destruct (applyLock2_shape self cl key payload (ttl options)
                  (h_sleep host (retryDelay options) w) Hc)
        as (t1 & T1 & Ht1 & Hp & Hf & Ht).
      destruct (outcome (Lock2.applyLock self key payload (ttl options) _))
        as [[|]|e|] eqn:Eo; cbn [outcome trace].
      * exists 1, t1. rewrite T1, retry2_exit by reflexivity. simpl.
        rewrite app_nil_r. repeat split; auto; try lia; try discriminate.
      * rewrite (Hf eq_refl) in T1.
        destruct (IH (S c) (final (Lock2.applyLock self key payload (ttl options)
                                     (h_sleep host (retryDelay options) w))))
          as (m & tail & Hm & Tr & Hshape & H1 & H2 & H3).
        exists (S m), tail. rewrite T1, Tr. simpl.
        split; [lia |]. split; [reflexivity |]. split; [exact Hshape |].
        split; [exact H1 |]. split; [exact H2 |].
        intros HP. destruct (H3 HP) as [-> ->]. split; reflexivity.
      * exists 1, t1. rewrite T1. simpl.
        repeat split; auto; try lia; discriminate.
      * contradiction.
    + exists 0, []. rewrite retry2_exit by (rewrite Ec; reflexivity). simpl.
      repeat split; auto; try lia; discriminate.
Qed.

Lemma acquireLock2_shape (self : @Lock2.Lock W) (cl : Client W) c s o options rounds w :
  Lock2.client self = ClientObj cl ->
  Lock2.getOptions self o = Ok options ->
  trace_shape ("redis-promise-lock:" +:+ String c s)
    (stringify_lockedSince (h_now host w)) options rounds
    (Lock2.acquireLock host rounds self (JStr (String c s)) o w).
Proof.
  intros Hc Ho.
  rewrite (acquireLock2_body host rounds self (JStr (String c s)) o options
             ("redis-promise-lock:" +:+ String c s) w Ho eq_refl).
  cbv zeta.
  destruct (applyLock2_shape self cl ("redis-promise-lock:" +:+ String c s)
              (stringify_lockedSince (h_now host w)) (ttl options) w Hc)
    as (t1 & T1 & Ht1 & Hp & Hf & Ht).
  unfold trace_shape.
  destruct (outcome (Lock2.applyLock self _ _ (ttl options) w))
    as [[|]|e|] eqn:Eo; cbn [outcome trace].
  - exists 0, t1. rewrite T1, retry2_exit by reflexivity. simpl.
    rewrite app_nil_r. repeat split; auto; try lia; discriminate.
  - rewrite (Hf eq_refl) in T1.
    destruct (retry2_shape self cl ("redis-promise-lock:" +:+ String c s)
                (stringify_lockedSince (h_now host w)) options Hc rounds 0
                (final (Lock2.applyLock self ("redis-promise-lock:" +:+ String c s)
                          (stringify_lockedSince (h_now host w)) (ttl options) w)))
      as (m & tail & Hm & Tr & Hshape & H1 & H2 & H3).
    exists m, tail. rewrite T1, Tr. unfold attempts. simpl.
    split; [exact Hm |]. split; [reflexivity |]. split; [exact Hshape |].
    split; [exact H1 |]. split; [exact H2 | exact H3].
  - exists 0, t1. rewrite T1. simpl. repeat split; auto; try lia; discriminate.
  - contradiction.
Qed.

(** X7: whatever the store answers, a call of [acquireLock] that got past
    its checks reads the clock, then makes attempts on the one key with the
    one payload, with a sleep of [retryDelay] before each but the first,
    and calls [expire] at most once, as the last thing it does: never
    after a refusal, and with the resolved ttl after an acceptance (not at
    all when the ttl is 0).  Both revisions. *)
Theorem acquireLock_trace_shape (self1 : @Lock1.Lock W) (self2 : @Lock2.Lock W)
    (cl : Client W) (c : ascii) (s : string) (o1 o2 : OptionalLockOptions)
    (options : LockOptions) (rounds : nat) (w : W) :
  Lock1.client self1 = ClientObj cl ->
  Lock2.client self2 = ClientObj cl ->
  Lock1.getOptions self1 o1 = Ok options ->
  Lock2.getOptions self2 o2 = Ok options ->
  trace_shape ("redis-promise-lock:" +:+ String c s)
    (stringify_lockedSince (h_now host w)) options rounds
    (Lock1.acquireLock host rounds self1 (JStr (String c s)) o1 w) /\
  trace_shape ("redis-promise-lock:" +:+ String c s)
    (stringify_lockedSince (h_now host w)) options rounds
    (Lock2.acquireLock host rounds self2 (JStr (String c s)) o2 w).
Proof.
  intros C1 C2 O1 O2. split.
  - rewrite (acquireLock_revisions host rounds self1 c s o1 options w O1).
    apply acquireLock2_shape with (cl := cl); [exact C1 |].
    now apply as_second_options with (o := o1).
  - now apply acquireLock2_shape with (cl := cl).
Qed.
End Shape.

Lemma acquireLock_trace_shape_witness :
  trace_shape "redis-promise-lock:beer"
    (stringify_lockedSince "2024-01-01T00:00:00.000Z")
    (mkOptions (num 3) (num 10) (num 5)) 2
    (Lock2.acquireLock (Mock.host third_time_lucky) 2 (mock_lock2 third_time_lucky)
       (JStr "beer") scenario_options Mock.start).
Proof.
  exact (proj2 (acquireLock_trace_shape (Mock.host third_time_lucky)
                  (mock_lock1 third_time_lucky) (mock_lock2 third_time_lucky)
                  (Mock.client third_time_lucky) "b" "eer"
                  scenario_options scenario_options
                  (mkOptions (num 3) (num 10) (num 5)) 2 Mock.start
                  eq_refl eq_refl eq_refl eq_refl)).
Defined.

(** ** What acquiring never does *)

Lemma calls_retries_none (p : Event -> bool) key payload delay n :
  p (EvSleep delay) = false -> p (EvSetNX key payload) = false ->
  calls p (retries key payload delay n) = 0.
Proof.
  intros H1 H2. induction n; simpl; [reflexivity |].
  unfold calls in *. simpl. now rewrite H1, H2.
Qed.

Lemma trace_shape_sparing {W} key payload options rounds (r : Run W bool) :
  trace_shape key payload options rounds r -> sparing r.
Proof.
  intros (m & tail & _ & Tr & Hshape & Hf & _ & _). unfold sparing. rewrite Tr.
  unfold attempts.
  change (EvDate :: (EvSetNX key payload :: retries key payload (retryDelay options) m)
            ++ tail)
    with (([EvDate; EvSetNX key payload]
             ++ retries key payload (retryDelay options) m) ++ tail)%list.
  rewrite !calls_app.
  rewrite !(calls_retries_none _ key payload) by reflexivity.
  split; [| split].
  - destruct Hshape as [-> | ->]; reflexivity.
  - destruct Hshape as [-> | ->]; unfold calls; simpl; lia.
  - intros H. rewrite (Hf H). reflexivity.
Qed.

Lemma sparing_nil {W} (o : Outcome bool) (w : W) : sparing (mkRun o w []).
Proof. repeat split; unfold calls; simpl; lia. Qed.

Section Never.
Context {W : Type} (host : Host W).

Lemma acquireLock2_sparing (self : @Lock2.Lock W) lockName o rounds w :
  sparing (Lock2.acquireLock host rounds self lockName o w).
Proof.
  destruct (Lock2.getOptions self o) as [options|e] eqn:Ho.
  - destruct (name_cases lockName) as [Hbad | (c & s & ->)].
    + destruct (getRedisKey_invalid lockName Hbad) as [_ E].
      rewrite (acquireLock2_name_error host rounds self lockName o options _ w Ho E).
      apply sparing_nil.
    + destruct (Lock2.client self) as [| |cl] eqn:Hc.
      * unfold Lock2.acquireLock, Lock2.applyLock, bind. rewrite Ho, Hc. simpl.
        repeat split; unfold calls; simpl; try lia; try discriminate.
      * unfold Lock2.acquireLock, Lock2.applyLock, bind. rewrite Ho, Hc. simpl.
        repeat split; unfold calls; simpl; try lia; try discriminate.
      * apply (trace_shape_sparing ("redis-promise-lock:" +:+ String c s)
                 (stringify_lockedSince (h_now host w)) options rounds).
        apply acquireLock2_shape with (cl := cl); assumption.
  - rewrite (acquireLock2_options_error host rounds self lockName o e w Ho).
    apply sparing_nil.
Qed.

Lemma acquireLock1_sparing (self : @Lock1.Lock W) lockName o rounds w :
  sparing (Lock1.acquireLock host rounds self lockName o w).
Proof.
  destruct (Lock1.getOptions self o) as [options|e] eqn:Ho.
  - destruct (name_cases lockName) as [Hbad | (c & s & ->)].
    + destruct (getRedisKey_invalid lockName Hbad) as [E _].
      rewrite (acquireLock1_name_error host rounds self lockName o options _ w Ho E).
      apply sparing_nil.
    + rewrite (acquireLock_revisions host rounds self c s o options w Ho).
      apply acquireLock2_sparing.
  - rewrite (acquireLock1_options_error host rounds self lockName o e w Ho).
    apply sparing_nil.
Qed.

(** X8: no call of [acquireLock], whatever its arguments, its client and
    the answers of the store, ever deletes a record or calls [expire]
    twice; one that returns false has not called [expire] at all, so a
    refused caller never extends the life of the lock it did not get.
    Both revisions. *)
Theorem acquireLock_sparing (self1 : @Lock1.Lock W) (self2 : @Lock2.Lock W)
    (lockName : JsVal) (o1 o2 : OptionalLockOptions) (rounds : nat) (w : W) :
  sparing (Lock1.acquireLock host rounds self1 lockName o1 w) /\
  sparing (Lock2.acquireLock host rounds self2 lockName o2 w).
Proof. split; [apply acquireLock1_sparing | apply acquireLock2_sparing]. Qed.

(** X11: the options are checked before the name and before the store is
    touched: when they do not resolve, [acquireLock] throws their error
    with an empty trace, whatever the name.  Both revisions. *)
Theorem acquireLock_options_first (self1 : @Lock1.Lock W) (self2 : @Lock2.Lock W)
    (lockName : JsVal) (o1 o2 : OptionalLockOptions) (e1 e2 : Exn)
    (rounds : nat) (w : W) :
  Lock1.getOptions self1 o1 = Throw e1 ->
  Lock2.getOptions self2 o2 = Throw e2 ->
  Lock1.acquireLock host rounds self1 lockName o1 w = mkRun (Threw e1) w [] /\
  Lock2.acquireLock host rounds self2 lockName o2 w = mkRun (Threw e2) w [].
Proof.
  intros H1 H2. split.
  - now apply acquireLock1_options_error.
  - now apply acquireLock2_options_error.
Qed.

(** X14: an instance of the second revision built on [null] cannot reach a
    store: [acquireLock] reads the clock and throws a [TypeError] at its
    first attempt, [releaseLock] throws one at once, and neither makes a
    call. *)
Theorem null_client_throws (o : OptionalLockOptions) (self : @Lock2.Lock W)
    (c : ascii) (s : string) (rounds : nat) (w : W) :
  Lock2.constructor NullClient o = Ok self ->
  Lock2.acquireLock host rounds self (JStr (String c s)) no_options w =
    mkRun (Threw (TypeError "setNX")) w [EvDate] /\
  Lock2.releaseLock self (JStr (String c s)) w = mkRun (Threw (TypeError "del")) w [].
Proof.
  intros H.
  assert (@NullClient W <> NoClient) as Hn by discriminate.
  destruct (constructor2_validates NullClient o Hn) as [_ Hok].
  destruct (Hok self H) as (Hc & (D1 & D2 & D3) & _).
  apply num_gt0_spec in D1, D2. apply num_ge0_spec in D3.
  split.
  - unfold Lock2.acquireLock, Lock2.applyLock, bind.
    rewrite getOptions2_unfold. unfold resolve2. simpl. rewrite D1, D2, D3. simpl.
    rewrite Hc. reflexivity.
  - unfold Lock2.releaseLock, bind. simpl. rewrite Hc. reflexivity.
Qed.
End Never.

Lemma acquireLock_options_first_witness :
  Lock1.acquireLock (Mock.host always_refusing) 5 (mock_lock1 always_refusing)
    (JStr "") (only_retryLimit (JNum (num (-1)))) Mock.start
    = mkRun (Threw Lock1.errRetryLimit) Mock.start [] /\
  Lock2.acquireLock (Mock.host always_refusing) 5 (mock_lock2 always_refusing)
    (JStr "") (only_ttl (JStr "soon")) Mock.start
    = mkRun (Threw Lock2.errTtl) Mock.start [].
Proof.
  apply (acquireLock_options_first (Mock.host always_refusing)
           (mock_lock1 always_refusing) (mock_lock2 always_refusing));
    reflexivity.
Defined.

Lemma null_client_throws_witness :
  Lock2.acquireLock (Mock.host always_refusing) 5
    (Lock2.mkLock NullClient (num 10) (num 100) (num 3)) (JStr "beer") no_options
    Mock.start = mkRun (Threw (TypeError "setNX")) Mock.start [EvDate].
Proof.
  exact (proj1 (null_client_throws (Mock.host always_refusing) no_options
                  (Lock2.mkLock NullClient (num 10) (num 100) (num 3))
                  "b" "eer" 5 Mock.start eq_refl)).
Defined.

(** ** Rounds *)

Section Rounds.
Context {W : Type} (host : Host W).



End Rounds.


(** ** Failures of the store *)

Section Failures.
Context {W : Type} (host : Host W).

Lemma acquireLock2_expire_rejected (self : @Lock2.Lock W) (cl : Client W) c s o options
    e w w1 w2 rounds :
  Lock2.client self = ClientObj cl ->
  Lock2.getOptions self o = Ok options ->
  cl_setNX cl ("redis-promise-lock:" +:+ String c s)
    (stringify_lockedSince (h_now host w)) w = (Fulfilled true, w1) ->
  ~ is_zero (ttl options) ->
  cl_expire cl ("redis-promise-lock:" +:+ String c s) (ttl options) w1 = (Rejects e, w2) ->
  Lock2.acquireLock host rounds self (JStr (String c s)) o w =
  mkRun (Threw e) w2
    [EvDate;
     EvSetNX ("redis-promise-lock:" +:+ String c s) (stringify_lockedSince (h_now host w));
     EvExpire ("redis-promise-lock:" +:+ String c s) (ttl options)].
Proof.
  intros Hc Ho Hs Hz He.
  rewrite (acquireLock2_body host rounds self (JStr (String c s)) o options
             ("redis-promise-lock:" +:+ String c s) w Ho eq_refl).
  cbv zeta. rewrite (applyLock2_run self cl _ _ _ _ Hc), Hs.
  apply num_neq0_spec in Hz. rewrite Hz. simpl. rewrite He. reflexivity.
Qed.

(** X10: when the store accepts the record but rejects the [expire] that
    follows, [acquireLock] throws that error at once: it does not retry
    and does not delete, so the record stays in the store without a time
    to live.  Both revisions. *)
Theorem acquireLock_expire_rejected (self1 : @Lock1.Lock W) (self2 : @Lock2.Lock W)
    (cl : Client W) (c : ascii) (s : string) (o1 o2 : OptionalLockOptions)
    (options : LockOptions) (e : Exn) (w w1 w2 : W) (rounds : nat) :
  Lock1.client self1 = ClientObj cl ->
  Lock2.client self2 = ClientObj cl ->
  Lock1.getOptions self1 o1 = Ok options ->
  Lock2.getOptions self2 o2 = Ok options ->
  cl_setNX cl ("redis-promise-lock:" +:+ String c s)
    (stringify_lockedSince (h_now host w)) w = (Fulfilled true, w1) ->
  ~ is_zero (ttl options) ->
  cl_expire cl ("redis-promise-lock:" +:+ String c s) (ttl options) w1 = (Rejects e, w2) ->
  Lock1.acquireLock host rounds self1 (JStr (String c s)) o1 w =
  mkRun (Threw e) w2
    [EvDate;
     EvSetNX ("redis-promise-lock:" +:+ String c s) (stringify_lockedSince (h_now host w));
     EvExpire ("redis-promise-lock:" +:+ String c s) (ttl options)] /\
  Lock2.acquireLock host rounds self2 (JStr (String c s)) o2 w =
  mkRun (Threw e) w2
    [EvDate;
     EvSetNX ("redis-promise-lock:" +:+ String c s) (stringify_lockedSince (h_now host w));
     EvExpire ("redis-promise-lock:" +:+ String c s) (ttl options)].
Proof.
  intros C1 C2 O1 O2 Hs Hz He. split.
  - rewrite (acquireLock_revisions host rounds self1 c s o1 options w O1).
    apply acquireLock2_expire_rejected with (cl := cl) (options := options) (w1 := w1);
      try assumption.
    now apply as_second_options with (o := o1).
  - now apply acquireLock2_expire_rejected with (cl := cl) (options := options) (w1 := w1).
Qed.



End Failures.

Lemma acquireLock_expire_rejected_witness :
  Lock2.acquireLock (Mock.host failing_expire) 5 (mock_lock2 failing_expire)
    (JStr "beer") scenario_options Mock.start =
  mkRun (Threw connection_lost) (Mock.mkWorld 1 1 0 0)
    [EvDate;
     EvSetNX "redis-promise-lock:beer" (stringify_lockedSince "2024-01-01T00:00:00.000Z");
     EvExpire "redis-promise-lock:beer" (num 5)].
Proof.
  refine (proj2 (acquireLock_expire_rejected (Mock.host failing_expire)
                   (mock_lock1 failing_expire) (mock_lock2 failing_expire)
                   (Mock.client failing_expire) "b" "eer"
                   scenario_options scenario_options
                   (mkOptions (num 3) (num 10) (num 5)) connection_lost
                   Mock.start (Mock.mkWorld 1 0 0 0) (Mock.mkWorld 1 1 0 0) 5
                   eq_refl eq_refl eq_refl eq_refl eq_refl _ eq_refl)).
  apply num_neq0_spec. reflexivity.
Defined.


(** ** A store that fails in the middle of the retries *)

Section Rejected.
Variable sc : Mock.Script.
Variable self : @Lock2.Lock Mock.World.
Hypothesis Hclient : Lock2.client self = ClientObj (Mock.client sc).
Variable options : LockOptions.

Lemma applyLock2_script_refuses key payload t w :
  Mock.on_setNX sc (Mock.setNX_calls w) = Fulfilled false ->
  exists w',
    Lock2.applyLock self key payload t w = mkRun (Returned false) w' [EvSetNX key payload] /\
    Mock.setNX_calls w' = S (Mock.setNX_calls w).
Proof.
  intros H. rewrite (applyLock2_run self _ key payload t w Hclient). simpl.
  rewrite H, andb_false_r. eexists. split; reflexivity.
Qed.

Lemma applyLock2_script_rejects key payload t w e :
  Mock.on_setNX sc (Mock.setNX_calls w) = Rejects e ->
  exists w',
    Lock2.applyLock self key payload t w = mkRun (Threw e) w' [EvSetNX key payload].
Proof.
  intros H. rewrite (applyLock2_run self _ key payload t w Hclient). simpl.
  rewrite H. eexists. reflexivity.
Qed.

Lemma retry2_rejected key payload e m : forall rounds c w,
  S m <= rounds ->
  (forall j, j < m -> Mock.on_setNX sc (Mock.setNX_calls w + j) = Fulfilled false) ->
  Mock.on_setNX sc (Mock.setNX_calls w + m) = Rejects e ->
  (forall j, j <= m -> counter_lt (c + j) (retryLimit options) = true) ->
  exists w',
    Lock2.retry (Mock.host sc) rounds self key payload options false c w =
    mkRun (Threw e) w' (retries key payload (retryDelay options) (S m)).
Proof.
  induction m as [|m IH]; intros rounds c w Hr Hf Ht Hlt.
  - destruct rounds as [|rounds]; [lia |].
    rewrite retry2_round by (rewrite <- (Nat.add_0_r c); apply Hlt; lia).
    rewrite Nat.add_0_r in Ht.
    destruct (applyLock2_script_rejects key payload (ttl options)
                (h_sleep (Mock.host sc) (retryDelay options) w) e Ht) as (w1 & E).
    cbv zeta. rewrite E. cbn [outcome final trace]. eexists. reflexivity.
  - destruct rounds as [|rounds]; [lia |].
    rewrite retry2_round by (rewrite <- (Nat.add_0_r c); apply Hlt; lia).
    assert (Mock.on_setNX sc (Mock.setNX_calls w) = Fulfilled false) as E0.
    { rewrite <- (Nat.add_0_r (Mock.setNX_calls w)). apply Hf. lia. }
    destruct (applyLock2_script_refuses key payload (ttl options)
                (h_sleep (Mock.host sc) (retryDelay options) w) E0) as (w1 & E & Hw1).
    change (Mock.setNX_calls (h_sleep (Mock.host sc) (retryDelay options) w))
      with (Mock.setNX_calls w) in Hw1.
    cbv zeta. rewrite E. cbn [outcome final trace].
    destruct (IH rounds (S c) w1) as (w2 & E2).
    + lia.
    + intros j Hj. rewrite Hw1. replace (S (Mock.setNX_calls w) + j)
        with (Mock.setNX_calls w + S j) by lia. apply Hf. lia.
    + rewrite Hw1. replace (S (Mock.setNX_calls w) + m)
        with (Mock.setNX_calls w + S m) by lia. exact Ht.
    + intros j Hj. replace (S c + j) with (c + S j) by lia. apply Hlt. lia.
    + rewrite E2. simpl. eexists. reflexivity.
Qed.

Lemma acquireLock2_rejected c s o n N e rounds :
  Lock2.getOptions self o = Ok options ->
  is_integer (retryLimit options) n ->
  N <= n -> N <= rounds ->
  (forall i, i < N -> Mock.on_setNX sc i = Fulfilled false) ->
  Mock.on_setNX sc N = Rejects e ->
  exists w',
    Lock2.acquireLock (Mock.host sc) rounds self (JStr (String c s)) o Mock.start =
    mkRun (Threw e) w'
      (EvDate :: attempts ("redis-promise-lock:" +:+ String c s)
                 (stringify_lockedSince (Mock.clock sc 0)) (retryDelay options) N).
Proof.
  intros Ho Hn HN Hr Hf Ht.
  rewrite (acquireLock2_body (Mock.host sc) rounds self (JStr (String c s)) o options
             ("redis-promise-lock:" +:+ String c s) Mock.start Ho eq_refl).
  cbv zeta. change (h_now (Mock.host sc) Mock.start) with (Mock.clock sc 0).
  destruct N as [|m].
  - destruct (applyLock2_script_rejects ("redis-promise-lock:" +:+ String c s)
                (stringify_lockedSince (Mock.clock sc 0)) (ttl options) Mock.start e Ht) as (w1 & E).
    rewrite E. cbn [outcome final trace]. eexists. reflexivity.
  - assert (Mock.on_setNX sc (Mock.setNX_calls Mock.start) = Fulfilled false) as E0
      by (apply (Hf 0); lia).
    destruct (applyLock2_script_refuses ("redis-promise-lock:" +:+ String c s)
                (stringify_lockedSince (Mock.clock sc 0)) (ttl options) Mock.start E0) as (w1 & E & Hw1).
    change (Mock.setNX_calls Mock.start) with 0 in Hw1.
    rewrite E. cbn [outcome final trace].
    destruct (retry2_rejected ("redis-promise-lock:" +:+ String c s)
                (stringify_lockedSince (Mock.clock sc 0)) e m rounds 0 w1) as (w2 & E2).
    + lia.
    + intros j Hj. rewrite Hw1. apply Hf. lia.
    + rewrite Hw1. exact Ht.
    + intros j Hj. rewrite (counter_lt_integer _ n _ Hn). apply Nat.ltb_lt. lia.
    + rewrite E2. simpl. eexists. reflexivity.
Qed.
End Rejected.

(** X9: a [setNX] that the store rejects ends the call: when the first [N]
    attempts are refused and the next is rejected with an error ([N] within
    the retry limit), [acquireLock] throws that error after exactly
    [N + 1] attempts and [N] sleeps, and makes no further attempt and no
    [expire].  Both revisions. *)
Theorem acquireLock_setNX_rejected (sc : Mock.Script)
    (self1 : @Lock1.Lock Mock.World) (self2 : @Lock2.Lock Mock.World)
    (c : ascii) (s : string) (o1 o2 : OptionalLockOptions) (options : LockOptions)
    (n N : nat) (e : Exn) (rounds : nat) :
  Lock1.client self1 = ClientObj (Mock.client sc) ->
  Lock2.client self2 = ClientObj (Mock.client sc) ->
  Lock1.getOptions self1 o1 = Ok options ->
  Lock2.getOptions self2 o2 = Ok options ->
  is_integer (retryLimit options) n ->
  N <= n -> N <= rounds ->
  (forall i, i < N -> Mock.on_setNX sc i = Fulfilled false) ->
  Mock.on_setNX sc N = Rejects e ->
  (outcome (Lock1.acquireLock (Mock.host sc) rounds self1 (JStr (String c s)) o1
              Mock.start) = Threw e /\
   trace (Lock1.acquireLock (Mock.host sc) rounds self1 (JStr (String c s)) o1
            Mock.start) =
     EvDate :: attempts ("redis-promise-lock:" +:+ String c s)
                 (stringify_lockedSince (Mock.clock sc 0)) (retryDelay options) N) /\
  (outcome (Lock2.acquireLock (Mock.host sc) rounds self2 (JStr (String c s)) o2
              Mock.start) = Threw e /\
   trace (Lock2.acquireLock (Mock.host sc) rounds self2 (JStr (String c s)) o2
            Mock.start) =
     EvDate :: attempts ("redis-promise-lock:" +:+ String c s)
                 (stringify_lockedSince (Mock.clock sc 0)) (retryDelay options) N).
Proof.
  intros C1 C2 O1 O2 Hn HN Hr Hf Ht. split.
  - rewrite (acquireLock_revisions (Mock.host sc) rounds self1 c s o1 options
               Mock.start O1).
    destruct (acquireLock2_rejected sc (as_second self1 options) C1 options c s
                no_options n N e rounds) as (w' & ->); try assumption.
    + now apply as_second_options with (o := o1).
    + split; reflexivity.
  - destruct (acquireLock2_rejected sc self2 C2 options c s o2 n N e rounds)
      as (w' & ->); try assumption.
    split; reflexivity.
Qed.

Lemma acquireLock_setNX_rejected_witness :
  outcome (Lock2.acquireLock (Mock.host failing_third) 5 (mock_lock2 failing_third)
             (JStr "beer") scenario_options Mock.start) = Threw connection_lost /\
  trace (Lock2.acquireLock (Mock.host failing_third) 5 (mock_lock2 failing_third)
           (JStr "beer") scenario_options Mock.start) =
    EvDate :: attempts "redis-promise-lock:beer"
                (stringify_lockedSince "2024-01-01T00:00:00.000Z") (num 10) 2.
Proof.
  refine (proj2 (acquireLock_setNX_rejected failing_third
                   (mock_lock1 failing_third) (mock_lock2 failing_third)
                   "b" "eer" scenario_options scenario_options
                   (mkOptions (num 3) (num 10) (num 5)) 3 2 connection_lost 5
                   eq_refl eq_refl eq_refl eq_refl _ _ _ _ eq_refl)).
  - exists (inject_Z 3). split; reflexivity.
  - lia.
  - lia.
  - intros [|[|i]] Hi; [reflexivity | reflexivity | lia].
Defined.

(** ** Construction, case by case *)


(** ** A free lock *)

Section Free.
Context {W : Type} (host : Host W).

Lemma acquireLock2_free (self : @Lock2.Lock W) (cl : Client W) c s o options w w1 rounds :
  Lock2.client self = ClientObj cl ->
  Lock2.getOptions self o = Ok options ->
  cl_setNX cl ("redis-promise-lock:" +:+ String c s)
    (stringify_lockedSince (h_now host w)) w = (Fulfilled true, w1) ->
  free_contract cl ("redis-promise-lock:" +:+ String c s)
    (stringify_lockedSince (h_now host w)) options w1
    (Lock2.acquireLock host rounds self (JStr (String c s)) o w).
Proof.
  intros Hc Ho Hs.
  rewrite (acquireLock2_body host rounds self (JStr (String c s)) o options
             ("redis-promise-lock:" +:+ String c s) w Ho eq_refl).
  cbv zeta. rewrite (applyLock2_run self cl _ _ _ _ Hc), Hs. split.
  - intros Hz. destruct (num_neq0 (ttl options)) eqn:E.
    + apply num_neq0_spec in E. contradiction.
    + simpl. rewrite retry2_exit by reflexivity. reflexivity.
  - intros u w2 Hz He. apply num_neq0_spec in Hz. rewrite Hz. simpl. rewrite He.
    cbn [outcome final trace]. rewrite retry2_exit by reflexivity. reflexivity.
Qed.

(** X17: when the store accepts the record at the first attempt,
    [acquireLock] returns true at once, without a sleep, whatever the retry
    limit and delay: with a ttl of 0 it makes no other call and the record
    is left without a time to live; with any other ttl it sets it, once.
    Both revisions. *)
Theorem acquireLock_free (cl : Client W) (c : ascii) (s : string)
    (options : LockOptions) (w w1 : W) (rounds : nat) :
  cl_setNX cl ("redis-promise-lock:" +:+ String c s)
    (stringify_lockedSince (h_now host w)) w = (Fulfilled true, w1) ->
  (forall (self : @Lock1.Lock W) o,
     Lock1.client self = ClientObj cl ->
     Lock1.getOptions self o = Ok options ->
     free_contract cl ("redis-promise-lock:" +:+ String c s)
       (stringify_lockedSince (h_now host w)) options w1
       (Lock1.acquireLock host rounds self (JStr (String c s)) o w)) /\
  (forall (self : @Lock2.Lock W) o,
     Lock2.client self = ClientObj cl ->
     Lock2.getOptions self o = Ok options ->
     free_contract cl ("redis-promise-lock:" +:+ String c s)
       (stringify_lockedSince (h_now host w)) options w1
       (Lock2.acquireLock host rounds self (JStr (String c s)) o w)).
Proof.
  intros Hs. split; intros self o Hc Ho.
  - rewrite (acquireLock_revisions host rounds self c s o options w Ho).
    apply acquireLock2_free; [exact Hc | | exact Hs].
    now apply as_second_options with (o := o).
  - now apply acquireLock2_free.
Qed.
End Free.

Lemma acquireLock_free_witness :
  Lock2.acquireLock Store.host 0 store_lock2 (JStr "gunna") scenario_options ∅ =
    mkRun (Returned true)
      (<["redis-promise-lock:gunna" :=
           Store.mkEntry (stringify_lockedSince "2024-01-01T00:00:00.000Z")
                         (Some (num 5))]> ∅)
      [EvDate;
       EvSetNX "redis-promise-lock:gunna" (stringify_lockedSince "2024-01-01T00:00:00.000Z");
       EvExpire "redis-promise-lock:gunna" (num 5)] /\
  Lock2.acquireLock Store.host 0 store_lock2 (JStr "gunna") (only_ttl (JNum (num 0))) ∅ =
    mkRun (Returned true)
      (<["redis-promise-lock:gunna" :=
           Store.mkEntry (stringify_lockedSince "2024-01-01T00:00:00.000Z") None]> ∅)
      [EvDate;
       EvSetNX "redis-promise-lock:gunna" (stringify_lockedSince "2024-01-01T00:00:00.000Z")].
Proof.
  assert (cl_setNX Store.client ("redis-promise-lock:" +:+ "gunna")
            (stringify_lockedSince (h_now Store.host ∅)) ∅ =
          (Fulfilled true,
           <["redis-promise-lock:gunna" :=
               Store.mkEntry (stringify_lockedSince "2024-01-01T00:00:00.000Z") None]> ∅))
    as Hs by (vm_compute; reflexivity).
  split.
  - destruct (acquireLock_free Store.host Store.client "g" "unna"
                (mkOptions (num 3) (num 10) (num 5)) ∅ _ 0 Hs) as [_ H2].
    destruct (H2 store_lock2 scenario_options eq_refl eq_refl) as [_ H].
    apply (H tt).
    + apply num_neq0_spec. reflexivity.
    + vm_compute. reflexivity.
  - destruct (acquireLock_free Store.host Store.client "g" "unna"
                (mkOptions (num 10) (num 100) (num 0)) ∅ _ 0 Hs) as [_ H2].
    destruct (H2 store_lock2 (only_ttl (JNum (num 0))) eq_refl eq_refl) as [H _].
    apply H. exists (inject_Z 0). split; reflexivity.
Defined.
